(** * MayaUIChanger: the theme loader and the installer

    A shallow embedding of [UIPresetLoader.py] (settings store, theme
    resolution, font-size rewriting of a stylesheet) and of the
    [userSetup.py] patch of [install.py].

    Python strings are modelled as [string]: a character is a code point
    below 256.  Files hold text; the file system maps a path to the text
    of the file there, if any. *)

From Stdlib Require Import Bool Arith Lia List.
From Stdlib Require Import Ascii String.
Import ListNotations.

Local Open Scope string_scope.
Local Open Scope bool_scope.

Notation "'do' x <- m ; k" :=
  (match m with Some x => k | None => None end)
  (at level 10, x name, m at level 100, k at level 200, only parsing).

(** ** Characters and strings *)

Definition dquote : ascii := "034"%char.
Definition backslash : ascii := "092"%char.

(** [str.isspace] on one character, the class [\s] of [re] on [str]
    patterns. *)
Definition is_space (c : ascii) : bool :=
  let n := nat_of_ascii c in
  (((9 <=? n) && (n <=? 13)) || ((28 <=? n) && (n <=? 32))
   || (n =? 133) || (n =? 160))%nat.

(** Lower-casing of one character: [A]-[Z], and the capital letters of
    the upper half ([215], the multiplication sign, has no case). *)
Definition lower_char (c : ascii) : ascii :=
  let n := nat_of_ascii c in
  if (((65 <=? n) && (n <=? 90))
      || ((192 <=? n) && (n <=? 222) && negb (n =? 215)))%nat
  then ascii_of_nat (n + 32) else c.

(** [str.lower]. *)
Fixpoint lower (s : string) : string :=
  match s with
  | EmptyString => EmptyString
  | String c s' => String (lower_char c) (lower s')
  end.

(** [s.replace(old, new)] for a one-character [old]. *)
Fixpoint replace (old : ascii) (new s : string) : string :=
  match s with
  | EmptyString => EmptyString
  | String c s' =>
      if Ascii.eqb c old then new ++ replace old new s'
      else String c (replace old new s')
  end.

(** [needle in hay]: [needle] occurs in [hay] as a substring. *)
Fixpoint contains (needle hay : string) : bool :=
  prefix needle hay
  || match hay with
     | EmptyString => false
     | String _ hay' => contains needle hay'
     end.

(** [s[:-1]]. *)
Fixpoint but_last (s : string) : string :=
  match s with
  | EmptyString => EmptyString
  | String _ EmptyString => EmptyString
  | String c s' => String c (but_last s')
  end.

(** [all(p(c) for c in s)]. *)
Fixpoint all_chars (p : ascii -> bool) (s : string) : bool :=
  match s with
  | EmptyString => true
  | String c s' => p c && all_chars p s'
  end.

Definition has_char (c : ascii) (s : string) : bool :=
  negb (all_chars (fun x => negb (Ascii.eqb x c)) s).

(** ** Regular expressions

    The two patterns of [apply_styles] are sequences of literal
    characters, [cls*] and [cls+].  [match_here] is the backtracking
    matcher of [re]: greedy repetitions, the longest attempt first. *)

Module Re.

Inductive atom : Type :=
| Lit (p : ascii)              (* a literal, compared under IGNORECASE *)
| Star (cls : ascii -> bool)   (* cls*, greedy *)
| Plus (cls : ascii -> bool).  (* cls+, greedy *)

Definition regex := list atom.

(** A literal of the pattern against a character of the subject under
    [re.IGNORECASE]. *)
Definition eq_nocase (p c : ascii) : bool :=
  Ascii.eqb (lower_char c) (lower_char p).

Definition took (c : ascii) (r : option (string * string))
  : option (string * string) :=
  match r with
  | Some (m, rest) => Some (String c m, rest)
  | None => None
  end.

(** [cls*] followed by the continuation [k]: take a character and go on;
    when that fails, give the character back and try [k] here. *)
Fixpoint star (cls : ascii -> bool)
    (k : string -> option (string * string)) (s : string)
  : option (string * string) :=
  match s with
  | String c s' =>
      if cls c then
        match star cls k s' with
        | Some r => took c (Some r)
        | None => k s
        end
      else k s
  | EmptyString => k s
  end.

(** The match of [r] at the start of [s]: the matched text and the rest
    of [s]. *)
Fixpoint match_here (r : regex) (s : string) : option (string * string) :=
  match r with
  | [] => Some (EmptyString, s)
  | Lit p :: r' =>
      match s with
      | String c s' => if eq_nocase p c then took c (match_here r' s') else None
      | EmptyString => None
      end
  | Star cls :: r' => star cls (match_here r') s
  | Plus cls :: r' =>
      match s with
      | String c s' =>
          if cls c then took c (star cls (match_here r') s') else None
      | EmptyString => None
      end
  end.

(** The literal characters of a string as a pattern. *)
Fixpoint lits (s : string) : regex :=
  match s with
  | EmptyString => []
  | String c s' => Lit c :: lits s'
  end.

(** [re.sub(r, f, s)] with a function [f] for the replacement: the
    leftmost match is replaced by [f] of its text and the scan goes on
    after it; where nothing matches the character is copied.  An empty
    match is replaced and the scan moves one character on.  [None] when a
    call of [f] fails.  Each step reads at least one character: fuel
    above the length of the text is never used up. *)
Fixpoint sub_loop (fuel : nat) (r : regex) (f : string -> option string)
    (s : string) : option string :=
  match fuel with
  | O => Some s
  | S fuel' =>
      match match_here r s with
      | Some (String c m, rest) =>
          do out <- f (String c m);
          do tl <- sub_loop fuel' r f rest;
          Some (out ++ tl)
      | Some (EmptyString, _) =>
          do out <- f EmptyString;
          match s with
          | EmptyString => Some out
          | String c s' =>
              do tl <- sub_loop fuel' r f s';
              Some (out ++ String c tl)
          end
      | None =>
          match s with
          | EmptyString => Some EmptyString
          | String c s' =>
              do tl <- sub_loop fuel' r f s';
              Some (String c tl)
          end
      end
  end.

Definition sub (r : regex) (f : string -> option string) (s : string)
  : option string :=
  sub_loop (S (String.length s)) r f s.

(** [re.sub(r, repl, s)] with a string for the replacement.  A template
    without a backslash stands for itself; one with a backslash is
    expanded by [re] (group references, escapes) or rejected, which is
    not modelled: [None]. *)
Definition sub_str (r : regex) (repl s : string) : option string :=
  if has_char backslash repl then None
  else sub r (fun _ => Some repl) s.

(** No match of [r] starts at a character of [a] in the text [a ++ t]. *)
Fixpoint quiet (r : regex) (a t : string) : bool :=
  match a with
  | EmptyString => true
  | String _ a' =>
      match match_here r (a ++ t) with
      | None => quiet r a' t
      | Some _ => false
      end
  end.

(** [l] and [q] are the same text up to the case of letters. *)
Definition same_nocase (l q : string) : bool :=
  match match_here (lits l) q with
  | Some (_, EmptyString) => true
  | _ => false
  end.

(** [l] stands somewhere in [a], up to the case of letters. *)
Fixpoint occurs (l a : string) : bool :=
  match match_here (lits l) a with
  | Some _ => true
  | None =>
      match a with
      | EmptyString => false
      | String _ a' => occurs l a'
      end
  end.

End Re.

(** ** The font-size rewrite of [apply_styles] *)

(** [QWidget\s*\{[^}]+\}] *)
Definition qwidget_re : Re.regex :=
  (Re.lits "QWidget"
   ++ [Re.Star is_space; Re.Lit "{"%char;
       Re.Plus (fun c => negb (Ascii.eqb c "}"%char)); Re.Lit "}"%char])%list.

(** [font-size:\s*[^;]+;] *)
Definition font_size_re : Re.regex :=
  (Re.lits "font-size:"
   ++ [Re.Star is_space; Re.Plus (fun c => negb (Ascii.eqb c ";"%char));
       Re.Lit ";"%char])%list.

Definition remove_font_size (content : string) : option string :=
  Re.sub_str font_size_re EmptyString content.

Definition replace_font_size (font_size content : string) : option string :=
  if contains "font-size:" content then
    Re.sub_str font_size_re ("font-size: " ++ font_size ++ ";") content
  else
    Some (but_last content ++ " font-size: " ++ font_size ++ "; }").

(** The stylesheet text that [apply_styles] hands to the application,
    from the text of the file and the font-size policy. *)
Definition modify_font_size (font_size style_sheet : string) : option string :=
  if String.eqb font_size "Auto" then
    Re.sub qwidget_re remove_font_size style_sheet
  else
    Re.sub qwidget_re (replace_font_size font_size) style_sheet.

(** ** The settings document: JSON text of a flat mapping

    [json.dump] of a mapping from strings to strings, and [json.load] on
    the text of a file.  The mapping keeps the order of insertion. *)

Module Json.

Definition dict := list (string * string).

(** [d.get(k)] *)
Fixpoint get (k : string) (d : dict) : option string :=
  match d with
  | [] => None
  | (k', v) :: d' => if String.eqb k' k then Some v else get k d'
  end.

(** [d.get(k, default)] *)
Definition get_default (k default : string) (d : dict) : string :=
  match get k d with
  | Some v => v
  | None => default
  end.

(** [d[k] = v]: the value of an existing key is replaced where the key
    stands, a new key goes to the end. *)
Fixpoint set (k v : string) (d : dict) : dict :=
  match d with
  | [] => [(k, v)]
  | (k', v') :: d' =>
      if String.eqb k' k then (k', v) :: d' else (k', v') :: set k v d'
  end.

Definition keys (d : dict) : list string := map fst d.

(** *** Encoding ([ensure_ascii], the default) *)

Definition hex_digit (n : nat) : ascii :=
  match String.get n "0123456789abcdef" with
  | Some c => c
  | None => "0"%char
  end.

Definition escape_char (c : ascii) : string :=
  let n := nat_of_ascii c in
  if Ascii.eqb c dquote then String backslash (String dquote EmptyString)
  else if Ascii.eqb c backslash
  then String backslash (String backslash EmptyString)
  else if (n =? 10)%nat then String backslash "n"
  else if (n =? 13)%nat then String backslash "r"
  else if (n =? 9)%nat then String backslash "t"
  else if (n =? 8)%nat then String backslash "b"
  else if (n =? 12)%nat then String backslash "f"
  else if ((32 <=? n) && (n <=? 126))%nat then String c EmptyString
  else String backslash
         (String "u" (String "0" (String "0"
            (String (hex_digit (n / 16))
               (String (hex_digit (n mod 16)) EmptyString))))).

Fixpoint escape (s : string) : string :=
  match s with
  | EmptyString => EmptyString
  | String c s' => escape_char c ++ escape s'
  end.

Definition encode_string (s : string) : string :=
  String dquote (escape s ++ String dquote EmptyString).

Fixpoint dump_members (d : dict) : string :=
  match d with
  | [] => EmptyString
  | (k, v) :: d' =>
      encode_string k ++ ": " ++ encode_string v
      ++ match d' with
         | [] => EmptyString
         | _ :: _ => ", " ++ dump_members d'
         end
  end.

(** [json.dumps(d)] *)
Definition dumps (d : dict) : string := "{" ++ dump_members d ++ "}".

(** *** Decoding

    [Parsed]: the text is an object whose values are strings.
    [Malformed]: [json.load] raises [JSONDecodeError].
    [Beyond]: the text may be JSON, but not of a flat mapping of strings
    of characters below 256 (another value where a string could stand, a
    [\u] escape of a higher character); the model says nothing there. *)

Inductive parse (A : Type) : Type :=
| Parsed (a : A)
| Malformed
| Beyond.
Arguments Parsed {A} a.
Arguments Malformed {A}.
Arguments Beyond {A}.

Definition is_ws (c : ascii) : bool :=
  let n := nat_of_ascii c in
  ((n =? 32) || (n =? 9) || (n =? 10) || (n =? 13))%nat.

Fixpoint skip_ws (s : string) : string :=
  match s with
  | String c s' => if is_ws c then skip_ws s' else s
  | EmptyString => EmptyString
  end.

Definition hex_value (c : ascii) : option nat :=
  let n := nat_of_ascii c in
  if ((48 <=? n) && (n <=? 57))%nat then Some (n - 48)
  else if ((97 <=? n) && (n <=? 102))%nat then Some (n - 87)
  else if ((65 <=? n) && (n <=? 70))%nat then Some (n - 55)
  else None.

Definition hex4 (a b c d : ascii) : option nat :=
  match hex_value a, hex_value b, hex_value c, hex_value d with
  | Some x, Some y, Some z, Some w => Some (((x * 16 + y) * 16 + z) * 16 + w)
  | _, _, _, _ => None
  end.

(** The character of a backslash escape other than [\u]. *)
Definition simple_escape (e : ascii) : option ascii :=
  if Ascii.eqb e dquote then Some dquote
  else if Ascii.eqb e backslash then Some backslash
  else if Ascii.eqb e "/" then Some "/"%char
  else if Ascii.eqb e "b" then Some "008"%char
  else if Ascii.eqb e "f" then Some "012"%char
  else if Ascii.eqb e "n" then Some "010"%char
  else if Ascii.eqb e "r" then Some "013"%char
  else if Ascii.eqb e "t" then Some "009"%char
  else None.

Definition push (c : ascii) (r : parse (string * string))
  : parse (string * string) :=
  match r with
  | Parsed (s, rest) => Parsed (String c s, rest)
  | Malformed => Malformed
  | Beyond => Beyond
  end.

(** The string whose opening quote has been read: its characters and the
    text after the closing quote. *)
Fixpoint scanstring (s : string) : parse (string * string) :=
  match s with
  | EmptyString => Malformed
  | String c s' =>
      if Ascii.eqb c dquote then Parsed (EmptyString, s')
      else if Ascii.eqb c backslash then
        match s' with
        | EmptyString => Malformed
        | String e s'' =>
            match simple_escape e with
            | Some ch => push ch (scanstring s'')
            | None =>
                if Ascii.eqb e "u" then
                  match s'' with
                  | String h1 (String h2 (String h3 (String h4 t))) =>
                      match hex4 h1 h2 h3 h4 with
                      | Some n =>
                          if (n <? 256)%nat
                          then push (ascii_of_nat n) (scanstring t)
                          else Beyond
                      | None => Malformed
                      end
                  | _ => Malformed
                  end
                else Malformed
            end
        end
      else if (nat_of_ascii c <? 32)%nat then Malformed
      else push c (scanstring s')
  end.

(** A character that can open a JSON value other than a string. *)
Definition other_value (c : ascii) : bool :=
  has_char c "{[-0123456789tfnNI".

(** The members of an object, [s] standing at the quote of a key; [acc]
    holds the members read so far. *)
Fixpoint members (fuel : nat) (s : string) (acc : dict)
  : parse (dict * string) :=
  match fuel with
  | O => Beyond
  | S fuel' =>
      match s with
      | EmptyString => Malformed
      | String c s1 =>
          if negb (Ascii.eqb c dquote) then Malformed else
          match scanstring s1 with
          | Malformed => Malformed
          | Beyond => Beyond
          | Parsed (k, s2) =>
              match skip_ws s2 with
              | EmptyString => Malformed
              | String c3 s3 =>
                  if negb (Ascii.eqb c3 ":") then Malformed else
                  match skip_ws s3 with
                  | EmptyString => Malformed
                  | String c4 s4 =>
                      if negb (Ascii.eqb c4 dquote) then
                        if other_value c4 then Beyond else Malformed
                      else
                        match scanstring s4 with
                        | Malformed => Malformed
                        | Beyond => Beyond
                        | Parsed (v, s5) =>
                            match skip_ws s5 with
                            | EmptyString => Malformed
                            | String c6 s6 =>
                                if Ascii.eqb c6 "}" then
                                  Parsed (set k v acc, s6)
                                else if Ascii.eqb c6 "," then
                                  members fuel' (skip_ws s6) (set k v acc)
                                else Malformed
                            end
                        end
                  end
              end
          end
      end
  end.

(** The document ends after the value: only blanks may follow. *)
Definition finish (d : dict) (s : string) : parse dict :=
  match skip_ws s with
  | EmptyString => Parsed d
  | String _ _ => Malformed
  end.

(** [json.loads(text)] *)
Definition loads (text : string) : parse dict :=
  match skip_ws text with
  | EmptyString => Malformed
  | String c s1 =>
      if Ascii.eqb c "{" then
        match skip_ws s1 with
        | EmptyString => Malformed
        | String c2 s2 =>
            if Ascii.eqb c2 "}" then finish [] s2
            else
              match members (String.length text) (String c2 s2) [] with
              | Parsed (d, s3) => finish d s3
              | Malformed => Malformed
              | Beyond => Beyond
              end
        end
      else if Ascii.eqb c dquote || other_value c then Beyond
      else Malformed
  end.

End Json.

(** ** The host, the files and the application *)

(** What Maya and the platform give: two directories and
    [os.path.join]. *)
Record host : Type := Host {
  userAppDir : string;
  userScriptDir : string;
  path_join : string -> string -> string
}.

(** The files, the stylesheet set on the [QApplication], and the
    warnings sent to [cmds.warning]. *)
Record state : Type := State {
  files : string -> option string;
  app_style : string;
  warnings : list string
}.

Definition write_file (path text : string) (fs : string -> option string)
  : string -> option string :=
  fun p => if String.eqb p path then Some text else fs p.

Section Loader.

Variable h : host.

Definition settings_file_path : string :=
  path_join h (userAppDir h) "theme_settings.json".

Definition save_settings (settings : Json.dict) (st : state) : state :=
  State (write_file settings_file_path (Json.dumps settings) (files st))
        (app_style st) (warnings st).

Definition load_settings (st : state) : Json.parse Json.dict :=
  match files st settings_file_path with
  | Some text => Json.loads text
  | None => Json.Parsed []
  end.

(** The name of the stylesheet file of a theme. *)
Definition qss_name (selected_theme : string) : string :=
  replace " " EmptyString (lower selected_theme) ++ "_stylesheet.qss".

Definition qss_file (selected_theme : string) : string :=
  path_join h (path_join h (userScriptDir h) "MayaUIChanger/")
            (qss_name selected_theme).

(** How a call of [apply_styles] ends.  [Applied] is the run to the end
    of the function: [setStyleSheet], [clear_target_windows] and the
    write of the settings file went through.  [Unmodelled] marks the
    calls that the model does not follow (settings that are not a flat
    mapping of strings, a font size with a backslash): nothing is said
    of how they end, and the state that comes with it stands for no
    state of the application. *)
Inductive ending : Type :=
| Applied      (* the stylesheet was set and the settings were saved *)
| NotFound     (* no stylesheet file: a warning, and return *)
| Raised       (* [JSONDecodeError] from [load_settings] *)
| Unmodelled.  (* outside the model: see [Json.Beyond], [Re.sub_str] *)

Definition resolve (arg : option string) (key default : string)
    (settings : Json.dict) : string :=
  match arg with
  | Some v => v
  | None => Json.get_default key default settings
  end.

Definition apply_styles (selected_theme font_size : option string)
    (st : state) : ending * state :=
  match load_settings st with
  | Json.Malformed => (Raised, st)
  | Json.Beyond => (Unmodelled, st)
  | Json.Parsed settings =>
      let selected_theme :=
        resolve selected_theme "selected_theme" "Maya Default" settings in
      let font_size := resolve font_size "font_size" "Auto" settings in
      match files st (qss_file selected_theme) with
      | None =>
          (NotFound,
           State (files st) (app_style st)
                 (warnings st
                  ++ ["Style file not found: " ++ qss_file selected_theme]))
      | Some style_sheet =>
          match modify_font_size font_size style_sheet with
          | None => (Unmodelled, st)
          | Some style_sheet' =>
              let settings :=
                Json.set "font_size" font_size
                  (Json.set "selected_theme" selected_theme settings) in
              (Applied,
               save_settings settings
                 (State (files st) style_sheet' (warnings st)))
          end
      end
  end.

End Loader.

(** ** The installer: the patch of [userSetup.py] *)

Module Install.

Definition nl : string := String "010" EmptyString.

Definition robust_setup_code : string :=
  String.concat nl
    [ EmptyString;
      "# -- MayaUIChanger Start --";
      "import maya.utils";
      EmptyString;
      "def mui_startup():";
      "    try:";
      "        import MayaUIChanger.UIPresetLoader as UIPresetLoader";
      "        UIPresetLoader.run()";
      "    except Exception as e:";
      "        print(f" ++ String dquote "MayaUIChanger Error: {e}"
        ++ String dquote ")";
      "        ";
      "    try:";
      "        import MayaUIChanger.SplashLoader";
      "    except Exception as e:";
      "        print(f" ++ String dquote "MayaUIChanger Splash Error: {e}"
        ++ String dquote ")";
      EmptyString;
      "maya.utils.executeDeferred(mui_startup)";
      "# -- MayaUIChanger End --";
      EmptyString ].

(** Section 3 of [install]: the text of [userSetup.py] before ([None]:
    no such file) and after. *)
Definition patch_usersetup (usersetup : option string) : option string :=
  match usersetup with
  | Some content =>
      if contains "MayaUIChanger" content then Some content
      else Some (content ++ (nl ++ robust_setup_code))
  | None => Some robust_setup_code
  end.

(** What the copy of the project folder meets: whether the target
    directory is there, whether [shutil.rmtree] and [shutil.copytree]
    raise. *)
Record copy_env : Type := CopyEnv {
  target_exists : bool;
  rmtree_raises : bool;
  copytree_raises : bool
}.

(** [install], as far as [userSetup.py] goes: a failed removal or copy
    returns before the patch. *)
Definition install (env : copy_env) (usersetup : option string)
  : option string :=
  if target_exists env && rmtree_raises env then usersetup
  else if copytree_raises env then usersetup
  else patch_usersetup usersetup.

End Install.

(** ** Stylesheets as lists of rules

    The words of the specification: a stylesheet is a sequence of rule
    blocks [selector { body }], none inside another, followed by text
    without braces. *)

Record rule : Type := Rule { selector : string; body : string }.

Definition rule_text (r : rule) : string :=
  selector r ++ "{" ++ body r ++ "}".

Fixpoint sheet_text (rs : list rule) (tail : string) : string :=
  match rs with
  | [] => tail
  | r :: rs' => rule_text r ++ sheet_text rs' tail
  end.

Definition is_brace (c : ascii) : bool :=
  Ascii.eqb c "{" || Ascii.eqb c "}".

Definition brace_free (s : string) : bool :=
  all_chars (fun c => negb (is_brace c)) s.

Definition flat_rule (r : rule) : bool :=
  brace_free (selector r) && brace_free (body r).

(** [hd] is [QWidget], in any case of letters, and blanks after it: what
    the pattern reads before the opening brace. *)
Definition qwidget_head (hd : string) : bool :=
  match Re.match_here (Re.lits "QWidget" ++ [Re.Star is_space])%list hd with
  | Some (_, EmptyString) => true
  | _ => false
  end.

(** The selector cut where the pattern starts to match: the text before,
    and the leftmost end of the selector that is a [qwidget_head]. *)
Fixpoint split_selector (sel : string) : option (string * string) :=
  if qwidget_head sel then Some (EmptyString, sel)
  else
    match sel with
    | EmptyString => None
    | String c sel' =>
        match split_selector sel' with
        | Some (p, hd) => Some (String c p, hd)
        | None => None
        end
    end.

(** The selector matches the pattern of [apply_styles]. *)
Definition qwidget_selector (sel : string) : bool :=
  match split_selector sel with
  | Some _ => true
  | None => false
  end.

(** A font-size declaration as the pattern reads it: the name with its
    colon, in any case of letters, and the value up to the semicolon. *)
Record decl : Type := Decl { d_name : string; d_value : string }.

Definition decl_text (d : decl) : string :=
  d_name d ++ d_value d ++ ";".

Definition font_size_decl (d : decl) : bool :=
  Re.same_nocase "font-size:" (d_name d)
  && negb (String.eqb (d_value d) EmptyString)
  && negb (has_char ";" (d_value d)).

(** Text in which [font-size:] does not stand, in any case of letters. *)
Definition no_font_size (gap : string) : bool :=
  negb (Re.occurs "font-size:" gap).

(** Declarations, each followed by other text, with [f] for the text of
    a declaration. *)
Fixpoint decls_text (f : decl -> string) (ds : list (decl * string))
  : string :=
  match ds with
  | [] => EmptyString
  | (d, gap) :: ds' => f d ++ gap ++ decls_text f ds'
  end.

Definition decls_ok (ds : list (decl * string)) : bool :=
  forallb (fun dg => font_size_decl (fst dg) && no_font_size (snd dg)) ds.

(** A property declaration of a block as a stylesheet writes it: the
    blanks before it, the name, the colon, the value, the semicolon. *)
Record property : Type :=
  Property { p_lead : string; p_name : string; p_value : string }.

Definition property_text (p : property) : string :=
  p_lead p ++ p_name p ++ ":" ++ p_value p ++ ";".

Fixpoint properties_text (ps : list property) : string :=
  match ps with
  | [] => EmptyString
  | p :: ps' => property_text p ++ properties_text ps'
  end.

(** The parts of a declaration are where its text shows them: blanks
    first, a name without colon or semicolon, a value without
    semicolon. *)
Definition property_ok (p : property) : bool :=
  all_chars is_space (p_lead p)
  && negb (has_char ":" (p_name p)) && negb (has_char ";" (p_name p))
  && negb (has_char ";" (p_value p)).

(** The name [font-size] with its colon, in any case of letters, blanks
    allowed before the colon. *)
Definition font_name_re : Re.regex :=
  (Re.lits "font-size" ++ [Re.Star is_space; Re.Lit ":"%char])%list.

(** The property [font-size] is named nowhere in [s]. *)
Definition no_font_size_name (s : string) : bool :=
  Re.quiet font_name_re s EmptyString.

(** [out] is [s] with some of its characters taken away. *)
Fixpoint is_subsequence (out s : string) : bool :=
  match s with
  | EmptyString =>
      match out with
      | EmptyString => true
      | String _ _ => false
      end
  | String c s' =>
      match out with
      | EmptyString => true
      | String x out' =>
          if Ascii.eqb x c then is_subsequence out' s'
          else is_subsequence out s'
      end
  end.

(** The file name of a theme in the words of the specification: the
    name in lower case, without its spaces, and the fixed suffix. *)
Definition theme_file_spec (theme : string) : string :=
  string_of_list_ascii
    (filter (fun c => negb (Ascii.eqb c " "))
            (map lower_char (list_ascii_of_string theme)))
  ++ "_stylesheet.qss".

(** ** Auxiliary notions of the proofs and the examples *)

(** A match that follows the matched text [q]. *)
Definition prepend (q : string) (r : option (string * string))
  : option (string * string) :=
  match r with
  | Some (m, rest) => Some (q ++ m, rest)
  | None => None
  end.

(** The next character of [s2] is not of the class: the star cannot go
    past [w]. *)
Definition stops (cls : ascii -> bool) (s2 : string) : Prop :=
  match s2 with
  | EmptyString => True
  | String c _ => cls c = false
  end.

(** A fact about one character, checked on each of the 256. *)
Ltac each_char c :=
  destruct c as [[] [] [] [] [] [] [] []]; vm_compute; try reflexivity;
  try discriminate; try (intros; discriminate); auto.

(** The classes [[^}]] and [[^;]]. *)
Definition not_rbrace (c : ascii) : bool := negb (Ascii.eqb c "}").

Definition not_semi (c : ascii) : bool := negb (Ascii.eqb c ";").

(** [[^;]+;], the end of the font-size pattern. *)
Definition value_re : Re.regex :=
  [Re.Plus (fun c => negb (Ascii.eqb c ";")); Re.Lit ";"].

(** The characters that a literal of [l] can match. *)
Definition reads (l : string) (c : ascii) : bool :=
  negb (all_chars (fun p => negb (Re.eq_nocase p c)) l).

(** What the scan writes for one rule: the block of a [QWidget] selector
    with something between its braces goes through [f]. *)
Definition rule_out (f : string -> option string) (r : rule)
  : option string :=
  match split_selector (selector r) with
  | Some (p, hd) =>
      if String.eqb (body r) EmptyString then Some (rule_text r)
      else do o <- f (hd ++ "{" ++ body r ++ "}"); Some (p ++ o)
  | None => Some (rule_text r)
  end.

(** The next character of [t] cannot be one of [font-size:] after its
    first: no occurrence of the name runs from the text before into
    [t]. *)
Definition calm (t : string) : Prop :=
  match t with
  | EmptyString => True
  | String c _ => reads "ont-size:" c = false
  end.

(** One more member read into the mapping. *)
Definition put (acc : Json.dict) (kv : string * string) : Json.dict :=
  Json.set (fst kv) (snd kv) acc.

(** Case analysis on what a successful parse went through. *)
Ltac crack H :=
  repeat match type of H with
         | (if ?b then _ else _) = _ => destruct b eqn:?; try discriminate H
         | match ?x with _ => _ end = _ =>
             destruct x eqn:?; try discriminate H
         end.

(** A host for the examples: the directories of a Linux user, and
    [os.path.join] of [posixpath] on its two arguments. *)
Definition posix_join (a b : string) : string :=
  match b with
  | String "/" _ => b
  | _ =>
      match a with
      | EmptyString => b
      | _ =>
          if String.eqb (substring (String.length a - 1) 1 a) "/"
          then a ++ b else a ++ "/" ++ b
      end
  end.

Definition linux : host :=
  Host "/home/u/maya/" "/home/u/maya/scripts/" posix_join.

(** Files for the examples: none, a stylesheet for the theme [Modo],
    and saved settings with it. *)
Definition no_files : string -> option string := fun _ => None.

Definition modo_only : string -> option string :=
  write_file (qss_file linux "Modo") "QWidget { color: red; }" no_files.

Definition modo_saved : string -> option string :=
  write_file (settings_file_path linux)
    (Json.dumps [("selected_theme", "Modo"); ("font_size", "Auto")])
    modo_only.

(** Files for more examples: stylesheets for [Modo] and [Umbra], and
    settings with one more entry. *)
Definition studio : string -> option string :=
  write_file (settings_file_path linux)
    (Json.dumps
       [("accent", "blue"); ("selected_theme", "Modo");
        ("font_size", "12pt")])
    (write_file (qss_file linux "Umbra") "QWidget { font-size: 9pt; }"
       modo_only).

(** Files of a first start: the stylesheet of [Maya Default] only. *)
Definition fresh : string -> option string :=
  write_file (qss_file linux "Maya Default")
    "QWidget { color: grey; font-size: 11pt; }" no_files.

(** ** The menu commands, repeated installs, the paint-driven widgets *)

(** The commands that [create_menu] puts behind the theme items and the
    font-size items: [make_theme_changer] and [make_font_changer]. *)
Definition theme_changer (h : host) (theme : string) (st : state)
  : ending * state :=
  apply_styles h (Some theme) None st.

Definition font_changer (h : host) (size : string) (st : state)
  : ending * state :=
  apply_styles h None (Some size) st.

(** A character from the space to the tilde. *)
Definition printable (c : ascii) : bool :=
  let n := nat_of_ascii c in ((32 <=? n) && (n <=? 126))%nat.

(** [install] run once for each element of [envs], one run on the file
    the run before left. *)
Definition install_runs (envs : list Install.copy_env)
    (usersetup : option string) : option string :=
  fold_left (fun f env => Install.install env f) envs usersetup.

Module Paint.

Definition PAINT_DRIVEN_CLASSES : list string :=
  [ "QmayaColorSliderLabel";
    "QmayaColorSliderGrp";
    "QmayaGradientControl";
    "QmayaRenderView";
    "QmayaGLWidget";
    "QmayaSwatchWidget";
    "QmayaColorEditor" ].

(** What [clear_paint_driven_styles] sets on a widget: its stylesheet,
    and the attribute [WA_StyledBackground]. *)
Record look : Type :=
  Look { style_sheet : string; styled_background : bool }.

(** An object of the widget tree: the name of its class, its look when
    it is a [QWidget], and its children. *)
Local Unset Elimination Schemes.
Inductive qobject : Type :=
| QObject (class_name : string) (widget : option look)
          (children : list qobject).
Local Set Elimination Schemes.

(** [cls in PAINT_DRIVEN_CLASSES] *)
Definition paint_driven (cls : string) : bool :=
  existsb (String.eqb cls) PAINT_DRIVEN_CLASSES.

(** The body of the loop, on one object that [findChildren] gave. *)
Definition clear_look (cls : string) (w : option look) : option look :=
  match w with
  | Some l =>
      if paint_driven cls then Some (Look EmptyString false) else Some l
  | None => None
  end.

(** The loop on an object that [findChildren(QWidget)] reaches: the
    object when it is a widget, and all below it. *)
Fixpoint clear_found (o : qobject) : qobject :=
  match o with
  | QObject cls w kids =>
      QObject cls (clear_look cls w) (map clear_found kids)
  end.

(** [clear_paint_driven_styles(widget)]: nothing for [None]; the widget
    itself is not among its children. *)
Definition clear_paint_driven_styles (widget : option qobject)
  : option qobject :=
  match widget with
  | None => None
  | Some (QObject cls w kids) => Some (QObject cls w (map clear_found kids))
  end.

(** The class and the look of every object below [o], parents first. *)
Fixpoint below (o : qobject) : list (string * option look) :=
  match o with
  | QObject _ _ kids =>
      flat_map (fun k =>
                  match k with
                  | QObject cls w _ => (cls, w) :: below k
                  end) kids
  end.

End Paint.

(** * Facts *)

(** ** Strings *)

Lemma append_assoc (a b c : string) : (a ++ b) ++ c = a ++ (b ++ c).
Proof. induction a as [|x a IH]; simpl; [reflexivity | now rewrite IH]. Qed.

Lemma append_nil_r (a : string) : a ++ EmptyString = a.
Proof. induction a as [|x a IH]; simpl; [reflexivity | now rewrite IH]. Qed.

Lemma length_append (a b : string) :
  String.length (a ++ b) = String.length a + String.length b.
Proof. induction a as [|x a IH]; simpl; [reflexivity | now rewrite IH]. Qed.

Lemma all_chars_app (p : ascii -> bool) (a b : string) :
  all_chars p (a ++ b) = all_chars p a && all_chars p b.
Proof.
  induction a as [|x a IH]; simpl; [reflexivity|].
  now rewrite IH, andb_assoc.
Qed.

(** Two cuts of one text at the first character of a kind agree. *)
Lemma split_first (P : ascii -> bool) (a a' : string) (c c' : ascii)
    (x y : string) :
  all_chars (fun z => negb (P z)) a = true ->
  all_chars (fun z => negb (P z)) a' = true ->
  P c = true -> P c' = true ->
  a ++ String c x = a' ++ String c' y ->
  a = a' /\ c = c' /\ x = y.
Proof.
  revert a'. induction a as [|z a IH]; intros [|z' a'] Ha Ha' Hc Hc' E;
    simpl in *.
  - now inversion E.
  - inversion E; subst z'. rewrite Hc in Ha'. discriminate.
  - inversion E; subst z. rewrite Hc' in Ha. discriminate.
  - inversion E; subst z'.
    apply andb_true_iff in Ha as [_ Ha]. apply andb_true_iff in Ha' as [_ Ha'].
    destruct (IH a' Ha Ha' Hc Hc' H1) as (-> & -> & ->). auto.
Qed.

Lemma but_last_snoc (a : string) (c : ascii) :
  but_last (a ++ String c EmptyString) = a.
Proof.
  induction a as [|x a IH]; simpl; [reflexivity|].
  rewrite IH. destruct a; reflexivity.
Qed.

Lemma prefix_app (n a b : string) :
  prefix n a = true -> prefix n (a ++ b) = true.
Proof.
  revert a. induction n as [|x n IH]; intros [|y a] H; simpl in *;
    try reflexivity; try discriminate.
  - destruct b; reflexivity.
  - destruct (ascii_dec x y); [auto | discriminate].
Qed.

Lemma contains_app_r (n a b : string) :
  contains n a = true -> contains n (a ++ b) = true.
Proof.
  induction a as [|y a IH]; intros H.
  - simpl in H. rewrite orb_false_r in H.
    destruct n; [|discriminate]. destruct b; reflexivity.
  - simpl in H. apply orb_true_iff in H as [H|H].
    + change (String y a ++ b) with (String y (a ++ b)).
      simpl. apply orb_true_iff; left.
      apply (prefix_app n (String y a) b H).
    + change (String y a ++ b) with (String y (a ++ b)).
      simpl. apply orb_true_iff; right. auto.
Qed.

Lemma contains_app_l (n a b : string) :
  contains n b = true -> contains n (a ++ b) = true.
Proof.
  intros H. induction a as [|y a IH]; simpl; [exact H|].
  apply orb_true_iff; right. exact IH.
Qed.

Lemma contains_suffix_false (n a b : string) :
  contains n (a ++ b) = false -> contains n b = false.
Proof.
  intros H. destruct (contains n b) eqn:E; [|reflexivity].
  now rewrite (contains_app_l n a b E) in H.
Qed.

(** ** The matcher *)

Lemma took_some c r m rest :
  Re.took c r = Some (m, rest) ->
  exists m', m = String c m' /\ r = Some (m', rest).
Proof.
  destruct r as [[m' rest']|]; simpl; [|discriminate].
  intros E; inversion E; subst. eauto.
Qed.

(** What [cls*] took, and where the continuation went on. *)
Lemma star_split cls k s m rest :
  Re.star cls k s = Some (m, rest) ->
  exists w s2 m2,
    s = w ++ s2 /\ all_chars cls w = true
    /\ k s2 = Some (m2, rest) /\ m = w ++ m2.
Proof.
  revert m. induction s as [|c s IH]; intros m H; simpl in H.
  - exists EmptyString, EmptyString, m. auto.
  - destruct (cls c) eqn:Hc.
    + destruct (Re.star cls k s) as [[m1 r1]|] eqn:E.
      * simpl in H. inversion H; subst.
        destruct (IH m1 eq_refl) as (w & s2 & m2 & -> & Hw & Hk & ->).
        exists (String c w), s2, m2. simpl. rewrite Hc, Hw. auto.
      * exists EmptyString, (String c s), m. auto.
    + exists EmptyString, (String c s), m. auto.
Qed.

Lemma star_greedy cls k w s2 m2 rest :
  all_chars cls w = true -> stops cls s2 ->
  k s2 = Some (m2, rest) ->
  Re.star cls k (w ++ s2) = Some (w ++ m2, rest).
Proof.
  intros Hw Hs Hk. induction w as [|c w IH]; simpl in *.
  - destruct s2 as [|c s2]; simpl; [exact Hk|]. now rewrite Hs.
  - apply andb_true_iff in Hw as [Hc Hw]. rewrite Hc, (IH Hw). reflexivity.
Qed.

Lemma match_here_split r : forall s m rest,
  Re.match_here r s = Some (m, rest) -> s = m ++ rest.
Proof.
  induction r as [|a r IH]; intros s m rest H; simpl in H.
  - now inversion H.
  - destruct a as [p|cls|cls].
    + destruct s as [|c s]; [discriminate|].
      destruct (Re.eq_nocase p c); [|discriminate].
      apply took_some in H as (m' & -> & H). simpl. f_equal. eauto.
    + apply star_split in H as (w & s2 & m2 & -> & _ & Hk & ->).
      rewrite append_assoc. f_equal. eauto.
    + destruct s as [|c s]; [discriminate|].
      destruct (cls c); [|discriminate].
      apply took_some in H as (m' & -> & H).
      apply star_split in H as (w & s2 & m2 & -> & _ & Hk & ->).
      simpl. rewrite append_assoc. do 2 f_equal. eauto.
Qed.

Lemma match_lits l r : forall s,
  Re.match_here (Re.lits l ++ r)%list s
  = match Re.match_here (Re.lits l) s with
    | Some (q, s2) => prepend q (Re.match_here r s2)
    | None => None
    end.
Proof.
  induction l as [|p l IH]; intros s; simpl.
  - destruct (Re.match_here r s) as [[m rest]|]; reflexivity.
  - destruct s as [|c s]; [reflexivity|].
    destruct (Re.eq_nocase p c); [|reflexivity].
    rewrite IH.
    destruct (Re.match_here (Re.lits l) s) as [[q s2]|]; simpl; [|reflexivity].
    destruct (Re.match_here r s2) as [[m rest]|]; reflexivity.
Qed.

Lemma match_lit_cons p r c s :
  Re.match_here (Re.Lit p :: r) (String c s)
  = if Re.eq_nocase p c then Re.took c (Re.match_here r s) else None.
Proof. reflexivity. Qed.

Lemma match_plus_cons cls r c s :
  Re.match_here (Re.Plus cls :: r) (String c s)
  = if cls c then Re.took c (Re.star cls (Re.match_here r) s) else None.
Proof. reflexivity. Qed.

Lemma match_star_cons cls r s :
  Re.match_here (Re.Star cls :: r) s = Re.star cls (Re.match_here r) s.
Proof. reflexivity. Qed.

(** A match of literals depends on the matched text only. *)
Lemma match_lits_move l : forall s q s2 t,
  Re.match_here (Re.lits l) s = Some (q, s2) ->
  Re.match_here (Re.lits l) (q ++ t) = Some (q, t).
Proof.
  induction l as [|p l IH]; intros s q s2 t H; simpl in H.
  - inversion H; subst. reflexivity.
  - destruct s as [|c s]; [discriminate|].
    destruct (Re.eq_nocase p c) eqn:Hc; [|discriminate].
    apply took_some in H as (q' & -> & H).
    simpl. rewrite Hc, (IH _ _ _ t H). reflexivity.
Qed.

Lemma match_lits_same l s q s2 :
  Re.match_here (Re.lits l) s = Some (q, s2) ->
  s = q ++ s2 /\ Re.same_nocase l q = true.
Proof.
  intros H. split; [exact (match_here_split _ _ _ _ H)|].
  unfold Re.same_nocase.
  pose proof (match_lits_move l s q s2 EmptyString H) as E.
  rewrite append_nil_r in E. now rewrite E.
Qed.

Lemma same_nocase_match l q t :
  Re.same_nocase l q = true ->
  Re.match_here (Re.lits l) (q ++ t) = Some (q, t).
Proof.
  unfold Re.same_nocase. intros H.
  destruct (Re.match_here (Re.lits l) q) as [[x [|]]|] eqn:E;
    try discriminate.
  pose proof (match_here_split _ _ _ _ E) as Hq.
  rewrite append_nil_r in Hq. subst x.
  exact (match_lits_move l q q EmptyString t E).
Qed.

Lemma same_nocase_length l : forall q,
  Re.same_nocase l q = true -> String.length q = String.length l.
Proof.
  unfold Re.same_nocase.
  induction l as [|p l IH]; intros q H; simpl in H.
  - destruct q; [reflexivity | discriminate].
  - destruct q as [|c q]; [discriminate|].
    destruct (Re.eq_nocase p c); [|discriminate].
    simpl. f_equal. apply IH.
    destruct (Re.match_here (Re.lits l) q) as [[x [|]]|]; simpl in *;
      try discriminate; reflexivity.
Qed.

(** ** Characters of the two patterns *)

Lemma eq_nocase_lbrace c : Re.eq_nocase "{" c = true -> c = "{"%char.
Proof. each_char c. Qed.

Lemma eq_nocase_rbrace c : Re.eq_nocase "}" c = true -> c = "}"%char.
Proof. each_char c. Qed.

Lemma eq_nocase_semi c : Re.eq_nocase ";" c = true -> c = ";"%char.
Proof. each_char c. Qed.

Lemma space_not_semi c :
  is_space c = true -> negb (Ascii.eqb c ";") = true.
Proof. each_char c. Qed.

Lemma space_not_brace c :
  is_space c = true -> negb (is_brace c) = true.
Proof. each_char c. Qed.

Lemma all_chars_impl (p q : ascii -> bool) s :
  (forall c, p c = true -> q c = true) ->
  all_chars p s = true -> all_chars q s = true.
Proof.
  intros Hpq. induction s as [|c s IH]; simpl; [reflexivity|].
  intros H. apply andb_true_iff in H as [Hc Hs].
  now rewrite (Hpq c Hc), (IH Hs).
Qed.

(** ** The pattern of a rule block *)

Lemma qwidget_head_split hd :
  qwidget_head hd = true ->
  exists q w, hd = q ++ w /\ Re.same_nocase "QWidget" q = true
              /\ all_chars is_space w = true.
Proof.
  unfold qwidget_head. rewrite match_lits. intros H.
  destruct (Re.match_here (Re.lits "QWidget") hd) as [[q s2]|] eqn:E;
    [|discriminate].
  apply match_lits_same in E as [-> Hq].
  destruct (Re.match_here [Re.Star is_space] s2) as [[m rest]|] eqn:E2;
    simpl in H; [|discriminate].
  destruct rest; [|discriminate].
  simpl in E2. apply star_split in E2 as (w & s3 & m2 & -> & Hw & Hk & ->).
  inversion Hk; subst. rewrite append_nil_r. eauto.
Qed.

Lemma qwidget_head_join q w :
  Re.same_nocase "QWidget" q = true -> all_chars is_space w = true ->
  qwidget_head (q ++ w) = true.
Proof.
  intros Hq Hw. unfold qwidget_head.
  rewrite match_lits, (same_nocase_match _ _ _ Hq).
  change (Re.match_here [Re.Star is_space] w)
    with (Re.star is_space (Re.match_here []) w).
  rewrite <- (append_nil_r w) at 1.
  rewrite (star_greedy is_space (Re.match_here []) w EmptyString
             EmptyString EmptyString Hw I eq_refl).
  reflexivity.
Qed.

(** What the pattern [QWidget\s*\{[^}]+\}] matches: a head, and between
    the braces a text that is not empty and holds no closing brace. *)
Lemma qwidget_match_shape s m rest :
  Re.match_here qwidget_re s = Some (m, rest) ->
  exists hd u,
    m = hd ++ "{" ++ u ++ "}" /\ qwidget_head hd = true
    /\ u <> EmptyString /\ all_chars not_rbrace u = true.
Proof.
  unfold qwidget_re. rewrite match_lits. intros H.
  destruct (Re.match_here (Re.lits "QWidget") s) as [[q s2]|] eqn:E;
    [|discriminate].
  apply match_lits_same in E as [-> Hq].
  destruct (Re.match_here _ s2) as [[m1 rest1]|] eqn:E2; simpl in H;
    [|discriminate].
  inversion H; subst m rest1; clear H.
  simpl in E2. apply star_split in E2 as (w & s3 & m2 & -> & Hw & Hk & ->).
  destruct s3 as [|c3 s3]; [discriminate|].
  destruct (Re.eq_nocase "{" c3) eqn:Hc3; [|discriminate].
  apply eq_nocase_lbrace in Hc3 as ->.
  apply took_some in Hk as (m3 & -> & Hk).
  destruct s3 as [|c4 s4]; [discriminate|].
  destruct (negb (Ascii.eqb c4 "}")) eqn:Hc4; [|discriminate].
  apply took_some in Hk as (m4 & -> & Hk).
  apply star_split in Hk as (w2 & s5 & m5 & -> & Hw2 & Hk & ->).
  destruct s5 as [|c6 s6]; [discriminate|].
  destruct (Re.eq_nocase "}" c6) eqn:Hc6; [|discriminate].
  apply eq_nocase_rbrace in Hc6 as ->.
  simpl in Hk. inversion Hk; subst.
  exists (q ++ w), (String c4 w2). repeat split.
  - rewrite !append_assoc. reflexivity.
  - now apply qwidget_head_join.
  - discriminate.
  - simpl. unfold not_rbrace at 1. rewrite Hc4. exact Hw2.
Qed.

Lemma qwidget_match_block hd u rest :
  qwidget_head hd = true -> u <> EmptyString ->
  all_chars not_rbrace u = true ->
  Re.match_here qwidget_re (hd ++ "{" ++ u ++ "}" ++ rest)
  = Some (hd ++ "{" ++ u ++ "}", rest).
Proof.
  intros Hhd Hu Hnb.
  apply qwidget_head_split in Hhd as (q & w & -> & Hq & Hw).
  unfold qwidget_re. rewrite match_lits, append_assoc.
  rewrite (same_nocase_match _ _ _ Hq).
  destruct u as [|c u]; [congruence|]. simpl in Hnb.
  apply andb_true_iff in Hnb as [Hc Hnb].
  assert (K2 : Re.match_here [Re.Lit "}"] ("}" ++ rest)
               = Some ("}", rest)) by reflexivity.
  assert (K1 : Re.match_here
                 [Re.Lit "{"; Re.Plus (fun c => negb (Ascii.eqb c "}"));
                  Re.Lit "}"] ("{" ++ String c u ++ "}" ++ rest)
               = Some ("{" ++ String c u ++ "}", rest)).
  { change ("{" ++ String c u ++ "}" ++ rest)
      with (String "{" (String c (u ++ "}" ++ rest))).
    rewrite match_lit_cons. change (Re.eq_nocase "{" "{") with true.
    rewrite match_plus_cons. unfold not_rbrace in Hc. rewrite Hc.
    rewrite (star_greedy (fun c => negb (Ascii.eqb c "}")) _ u
               ("}" ++ rest) "}" rest Hnb eq_refl K2).
    reflexivity. }
  rewrite match_star_cons.
  rewrite (star_greedy is_space _ w ("{" ++ String c u ++ "}" ++ rest)
             _ _ Hw eq_refl K1).
  simpl. rewrite !append_assoc. reflexivity.
Qed.

(** ** The pattern of a font-size declaration *)

Lemma value_match u rest :
  u <> EmptyString -> all_chars not_semi u = true ->
  Re.match_here value_re (u ++ ";" ++ rest) = Some (u ++ ";", rest).
Proof.
  intros Hu Hns. destruct u as [|c u]; [congruence|].
  simpl in Hns. apply andb_true_iff in Hns as [Hc Hns].
  unfold value_re.
  change (String c u ++ ";" ++ rest) with (String c (u ++ ";" ++ rest)).
  rewrite match_plus_cons. unfold not_semi in Hc. rewrite Hc.
  rewrite (star_greedy (fun c => negb (Ascii.eqb c ";")) _ u
             (";" ++ rest) ";" rest Hns eq_refl eq_refl).
  reflexivity.
Qed.

(** The blanks after the colon are part of the value: when the value is
    blanks only, [\s*] gives the last one back to [[^;]+]. *)
Lemma blanks_then_value rest : forall u,
  u <> EmptyString -> all_chars not_semi u = true ->
  Re.star is_space (Re.match_here value_re) (u ++ ";" ++ rest)
  = Some (u ++ ";", rest).
Proof.
  induction u as [|c u IH]; intros Hu Hns; [congruence|].
  pose proof (value_match (String c u) rest Hu Hns) as K.
  change (String c u ++ ";" ++ rest) with (String c (u ++ ";" ++ rest)) in *.
  simpl in Hns. apply andb_true_iff in Hns as [Hc Hns].
  cbn [Re.star]. destruct (is_space c); [|exact K].
  destruct u as [|c' u].
  - change (EmptyString ++ ";" ++ rest) with (String ";" rest).
    cbn [Re.star]. change (is_space ";") with false. cbv iota.
    change (Re.match_here value_re (String ";" rest)) with
      (@None (string * string)).
    exact K.
  - rewrite (IH ltac:(discriminate) Hns). reflexivity.
Qed.

(** What the pattern [font-size:\s*[^;]+;] matches: the name with its
    colon, and up to the semicolon a text that is not empty. *)
Lemma font_match_shape s m rest :
  Re.match_here font_size_re s = Some (m, rest) ->
  exists l u,
    m = l ++ u ++ ";" /\ Re.same_nocase "font-size:" l = true
    /\ u <> EmptyString /\ all_chars not_semi u = true.
Proof.
  unfold font_size_re. rewrite match_lits. intros H.
  destruct (Re.match_here (Re.lits "font-size:") s) as [[q s2]|] eqn:E;
    [|discriminate].
  apply match_lits_same in E as [-> Hq].
  destruct (Re.match_here _ s2) as [[m1 rest1]|] eqn:E2; simpl in H;
    [|discriminate].
  inversion H; subst m rest1; clear H.
  rewrite match_star_cons in E2.
  apply star_split in E2 as (w & s3 & m2 & -> & Hw & Hk & ->).
  destruct s3 as [|c4 s4]; [discriminate|].
  rewrite match_plus_cons in Hk.
  destruct (negb (Ascii.eqb c4 ";")) eqn:Hc4; [|discriminate].
  apply took_some in Hk as (m4 & -> & Hk).
  apply star_split in Hk as (w2 & s5 & m5 & -> & Hw2 & Hk & ->).
  destruct s5 as [|c6 s6]; [discriminate|].
  rewrite match_lit_cons in Hk.
  destruct (Re.eq_nocase ";" c6) eqn:Hc6; [|discriminate].
  apply eq_nocase_semi in Hc6 as ->.
  simpl in Hk. inversion Hk; subst.
  exists q, (w ++ String c4 w2). repeat split.
  - rewrite !append_assoc. reflexivity.
  - exact Hq.
  - destruct w; discriminate.
  - rewrite all_chars_app. apply andb_true_iff; split.
    + exact (all_chars_impl is_space not_semi w space_not_semi Hw).
    + simpl. unfold not_semi at 1. rewrite Hc4. exact Hw2.
Qed.

Lemma font_match_decl l u rest :
  Re.same_nocase "font-size:" l = true ->
  u <> EmptyString -> all_chars not_semi u = true ->
  Re.match_here font_size_re (l ++ u ++ ";" ++ rest)
  = Some (l ++ u ++ ";", rest).
Proof.
  intros Hl Hu Hns. unfold font_size_re.
  rewrite match_lits, (same_nocase_match _ _ _ Hl).
  rewrite match_star_cons.
  change [Re.Plus (fun c => negb (Ascii.eqb c ";")); Re.Lit ";"]
    with value_re.
  rewrite (blanks_then_value rest u Hu Hns). reflexivity.
Qed.

(** ** [re.sub] *)

Section Sub.

Variable r : Re.regex.
Variable f : string -> option string.

Lemma sub_loop_fuel : forall fuel1 fuel2 s,
  String.length s < fuel1 -> String.length s < fuel2 ->
  Re.sub_loop fuel1 r f s = Re.sub_loop fuel2 r f s.
Proof.
  induction fuel1 as [|n IH]; intros [|n2] s H1 H2; try lia.
  cbn [Re.sub_loop].
  destruct (Re.match_here r s) as [[[|c m] rest]|] eqn:E.
  - destruct (f EmptyString); [|reflexivity].
    destruct s as [|c s]; [reflexivity|]. simpl in H1, H2.
    rewrite (IH n2 s) by lia. reflexivity.
  - destruct (f (String c m)); [|reflexivity].
    apply match_here_split in E. subst s.
    rewrite length_append in H1, H2. simpl in H1, H2.
    rewrite (IH n2 rest) by lia. reflexivity.
  - destruct s as [|c s]; [reflexivity|]. simpl in H1, H2.
    rewrite (IH n2 s) by lia. reflexivity.
Qed.

(** The scan at a match that is not empty. *)
Lemma sub_match s c m rest :
  Re.match_here r s = Some (String c m, rest) ->
  Re.sub r f s
  = do out <- f (String c m);
    do tl <- Re.sub r f rest;
    Some (out ++ tl).
Proof.
  intros E. unfold Re.sub. cbn [Re.sub_loop]. rewrite E.
  destruct (f (String c m)); [|reflexivity].
  apply match_here_split in E. subst s.
  rewrite (sub_loop_fuel _ (S (String.length rest)) rest); [reflexivity| |lia].
  rewrite length_append. simpl. lia.
Qed.

(** The scan where nothing matches. *)
Lemma sub_copy c s :
  Re.match_here r (String c s) = None ->
  Re.sub r f (String c s)
  = do tl <- Re.sub r f s; Some (String c tl).
Proof.
  intros E. unfold Re.sub. cbn [Re.sub_loop]. rewrite E.
  rewrite (sub_loop_fuel _ (S (String.length s)) s); [reflexivity| |lia].
  simpl. lia.
Qed.

Lemma sub_quiet t : forall a,
  Re.quiet r a t = true ->
  Re.sub r f (a ++ t) = do o <- Re.sub r f t; Some (a ++ o).
Proof.
  induction a as [|c a IH]; intros H; simpl in *.
  - destruct (Re.sub r f t); reflexivity.
  - destruct (Re.match_here r (String c (a ++ t))) eqn:E; [discriminate|].
    rewrite (sub_copy _ _ E), (IH H).
    destruct (Re.sub r f t); reflexivity.
Qed.

Lemma quiet_app t : forall a b,
  Re.quiet r a (b ++ t) = true -> Re.quiet r b t = true ->
  Re.quiet r (a ++ b) t = true.
Proof.
  induction a as [|c a IH]; intros b Ha Hb; simpl in *; [exact Hb|].
  rewrite append_assoc.
  destruct (Re.match_here r (String c (a ++ b ++ t))); [discriminate|].
  auto.
Qed.

End Sub.

(** A scan whose replacement function does not fail gives a text. *)
Lemma sub_total r f :
  (forall m, f m <> None) -> forall s, Re.sub r f s <> None.
Proof.
  intros Hf. unfold Re.sub. intros s. generalize (S (String.length s)).
  intros fuel. revert s.
  induction fuel as [|n IH]; intros s; cbn [Re.sub_loop]; [discriminate|].
  destruct (Re.match_here r s) as [[[|c m] rest]|].
  - specialize (Hf EmptyString). destruct (f EmptyString); [|congruence].
    destruct s as [|c s]; [discriminate|].
    specialize (IH s).
    destruct (Re.sub_loop n r f s); [discriminate|congruence].
  - specialize (Hf (String c m)). destruct (f (String c m)); [|congruence].
    specialize (IH rest).
    destruct (Re.sub_loop n r f rest); [discriminate|congruence].
  - destruct s as [|c s]; [discriminate|].
    specialize (IH s).
    destruct (Re.sub_loop n r f s); [discriminate|congruence].
Qed.

Lemma sub_match_text r f s m rest :
  Re.match_here r s = Some (m, rest) -> m <> EmptyString ->
  Re.sub r f s
  = do out <- f m; do tl <- Re.sub r f rest; Some (out ++ tl).
Proof.
  intros E Hm. destruct m as [|c m]; [congruence|].
  exact (sub_match r f s c m rest E).
Qed.

(** ** The scan of a stylesheet, rule by rule *)

Lemma same_nocase_reads l : forall q,
  Re.same_nocase l q = true -> all_chars (reads l) q = true.
Proof.
  unfold Re.same_nocase.
  induction l as [|p l IH]; intros q H.
  - simpl in H. destruct q; [reflexivity | discriminate].
  - destruct q as [|c q]; [discriminate|].
    cbn [Re.lits Re.match_here] in H.
    destruct (Re.eq_nocase p c) eqn:Hc; [|discriminate].
    simpl. apply andb_true_iff; split.
    + unfold reads. simpl. now rewrite Hc.
    + assert (Hq : all_chars (reads l) q = true).
      { apply IH.
        destruct (Re.match_here (Re.lits l) q) as [[x [|]]|]; simpl in *;
          try discriminate; reflexivity. }
      revert Hq. apply all_chars_impl. intros c0. unfold reads. simpl.
      destruct (Re.eq_nocase p c0); simpl; auto.
Qed.

Lemma reads_qwidget_not_brace c :
  reads "QWidget" c = true -> negb (is_brace c) = true.
Proof. each_char c. Qed.

Lemma qwidget_head_brace_free hd :
  qwidget_head hd = true -> brace_free hd = true.
Proof.
  intros H. apply qwidget_head_split in H as (q & w & -> & Hq & Hw).
  unfold brace_free. rewrite all_chars_app. apply andb_true_iff; split.
  - apply same_nocase_reads in Hq. revert Hq.
    apply all_chars_impl. exact reads_qwidget_not_brace.
  - revert Hw. apply all_chars_impl. exact space_not_brace.
Qed.

(** A match that starts before the first brace of the text starts at a
    head, and that brace opens the block. *)
Lemma qwidget_match_at a b x m rest :
  Re.match_here qwidget_re (a ++ String b x) = Some (m, rest) ->
  brace_free a = true -> is_brace b = true ->
  b = "{"%char /\ qwidget_head a = true
  /\ exists u, u <> EmptyString /\ all_chars not_rbrace u = true
               /\ x = u ++ "}" ++ rest.
Proof.
  intros E Ha Hb.
  pose proof (match_here_split _ _ _ _ E) as Hs.
  apply qwidget_match_shape in E as (hd & u & -> & Hhd & Hu & Hnb).
  rewrite !append_assoc in Hs.
  change ("{" ++ u ++ "}" ++ rest) with (String "{" (u ++ "}" ++ rest)) in Hs.
  destruct (split_first is_brace a hd b "{" x _ Ha
              (qwidget_head_brace_free _ Hhd) Hb eq_refl Hs)
    as (-> & -> & ->).
  repeat split; trivial. exists u. auto.
Qed.

Lemma not_rbrace_head u x y :
  u <> EmptyString -> all_chars not_rbrace u = true ->
  String "}" x <> u ++ y.
Proof.
  intros Hu Hnb E. destruct u as [|c u]; [congruence|].
  simpl in *. inversion E; subst c. discriminate.
Qed.

Lemma brace_free_not_rbrace s :
  brace_free s = true -> all_chars not_rbrace s = true.
Proof.
  apply all_chars_impl. intros c. unfold is_brace, not_rbrace.
  destruct (Ascii.eqb c "{"), (Ascii.eqb c "}"); simpl; congruence.
Qed.

(** Nothing matches inside the braces of a block. *)
Lemma quiet_block body X :
  brace_free body = true ->
  Re.quiet qwidget_re ("{" ++ body ++ "}") X = true.
Proof.
  intros Hb.
  assert (Hin : forall b, brace_free b = true ->
                Re.quiet qwidget_re (b ++ "}") X = true).
  { induction b as [|c b IH]; intros Hbf.
    - reflexivity.
    - change (Re.quiet qwidget_re (String c b ++ "}") X)
        with (match Re.match_here qwidget_re ((String c b ++ "}") ++ X) with
              | None => Re.quiet qwidget_re (b ++ "}") X
              | Some _ => false
              end).
      rewrite append_assoc.
      destruct (Re.match_here qwidget_re (String c b ++ "}" ++ X))
        as [[m rest]|] eqn:E.
      + destruct (qwidget_match_at (String c b) "}" X m rest E Hbf eq_refl)
          as (Habs & _). discriminate.
      + apply IH. simpl in Hbf. now apply andb_true_iff in Hbf as [_ ?]. }
  change (Re.quiet qwidget_re ("{" ++ body ++ "}") X)
    with (match Re.match_here qwidget_re (("{" ++ body ++ "}") ++ X) with
          | None => Re.quiet qwidget_re (body ++ "}") X
          | Some _ => false
          end).
  destruct (Re.match_here qwidget_re (("{" ++ body ++ "}") ++ X))
    as [[m rest]|] eqn:E; [|now apply Hin].
  destruct (qwidget_match_at EmptyString "{" ((body ++ "}") ++ X) m rest E
              eq_refl eq_refl) as (_ & Habs & _).
  discriminate.
Qed.

Lemma split_selector_none c sel :
  split_selector (String c sel) = None ->
  qwidget_head (String c sel) = false /\ split_selector sel = None.
Proof.
  cbn [split_selector].
  destruct (qwidget_head (String c sel)); [discriminate|].
  destruct (split_selector sel) as [[p hd]|]; [discriminate | auto].
Qed.

(** Nothing matches in a selector that is no [QWidget] selector, nor
    in any selector before braces with nothing between. *)
Lemma quiet_selector body X : forall sel,
  brace_free sel = true ->
  split_selector sel = None \/ body = EmptyString ->
  Re.quiet qwidget_re sel ("{" ++ body ++ "}" ++ X) = true.
Proof.
  induction sel as [|c sel IH]; intros Hbf Hs; [reflexivity|].
  cbn [Re.quiet].
  destruct (Re.match_here qwidget_re (String c sel ++ "{" ++ body ++ "}" ++ X))
    as [[m rest]|] eqn:E.
  - destruct (qwidget_match_at (String c sel) "{" _ m rest E Hbf eq_refl)
      as (_ & Hhd & u & Hu & Hnb & Hx).
    destruct Hs as [Hs | ->].
    + apply split_selector_none in Hs as [Hs _]. congruence.
    + exfalso. exact (not_rbrace_head u X ("}" ++ rest) Hu Hnb Hx).
  - apply IH.
    + simpl in Hbf. now apply andb_true_iff in Hbf as [_ ?].
    + destruct Hs as [Hs | Hs]; [left | now right].
      now apply split_selector_none in Hs.
Qed.

Lemma split_selector_some body X : forall sel p hd,
  brace_free sel = true -> split_selector sel = Some (p, hd) ->
  sel = p ++ hd /\ qwidget_head hd = true
  /\ Re.quiet qwidget_re p (hd ++ "{" ++ body ++ "}" ++ X) = true.
Proof.
  induction sel as [|c sel IH]; intros p hd Hbf Hs.
  - discriminate.
  - cbn [split_selector] in Hs.
    destruct (qwidget_head (String c sel)) eqn:Hhd.
    + inversion Hs; subst. auto.
    + destruct (split_selector sel) as [[p' hd']|] eqn:Hs'; [|discriminate].
      inversion Hs; subst p hd; clear Hs.
      assert (Hbf' : brace_free sel = true).
      { simpl in Hbf. now apply andb_true_iff in Hbf as [_ ?]. }
      destruct (IH p' hd' Hbf' eq_refl) as (Esel & Hhd' & Hq).
      repeat split; [simpl; now f_equal | exact Hhd' |].
      cbn [Re.quiet]. rewrite Hq.
      destruct (Re.match_here qwidget_re
                  (String c p' ++ hd' ++ "{" ++ body ++ "}" ++ X))
        as [[m rest]|] eqn:E; [|reflexivity].
      rewrite <- append_assoc in E.
      change (String c p' ++ hd') with (String c (p' ++ hd')) in E.
      rewrite <- Esel in E.
      destruct (qwidget_match_at (String c sel) "{" _ m rest E Hbf eq_refl)
        as (_ & Habs & _). congruence.
Qed.

Lemma match_not_brace_free s m rest :
  Re.match_here qwidget_re s = Some (m, rest) -> brace_free s = false.
Proof.
  intros E. pose proof (match_here_split _ _ _ _ E) as ->.
  apply qwidget_match_shape in E as (hd & u & -> & _).
  unfold brace_free. rewrite !append_assoc, all_chars_app. simpl.
  apply andb_false_r.
Qed.

(** Text without braces is copied. *)
Lemma quiet_tail : forall tail,
  brace_free tail = true -> Re.quiet qwidget_re tail EmptyString = true.
Proof.
  induction tail as [|c tail IH]; intros Hbf; [reflexivity|].
  cbn [Re.quiet]. rewrite append_nil_r.
  destruct (Re.match_here qwidget_re (String c tail)) as [[m rest]|] eqn:E.
  - apply match_not_brace_free in E. congruence.
  - apply IH. simpl in Hbf. now apply andb_true_iff in Hbf as [_ ?].
Qed.

Lemma sub_tail f tail :
  brace_free tail = true -> Re.sub qwidget_re f tail = Some tail.
Proof.
  intros Hbf. rewrite <- (append_nil_r tail) at 1.
  rewrite (sub_quiet _ f _ _ (quiet_tail tail Hbf)).
  change (Re.sub qwidget_re f EmptyString) with (Some EmptyString).
  cbv beta iota. now rewrite !append_nil_r.
Qed.

Lemma rule_scan f r X :
  flat_rule r = true ->
  Re.sub qwidget_re f (rule_text r ++ X)
  = do o <- rule_out f r; do o2 <- Re.sub qwidget_re f X; Some (o ++ o2).
Proof.
  unfold flat_rule, rule_text, rule_out. destruct r as [sel bd].
  cbn [selector body]. intros Hf. apply andb_true_iff in Hf as [Hs Hb].
  assert (Hcopy : split_selector sel = None \/ bd = EmptyString ->
    Re.sub qwidget_re f ((sel ++ "{" ++ bd ++ "}") ++ X)
    = do o2 <- Re.sub qwidget_re f X;
      Some ((sel ++ "{" ++ bd ++ "}") ++ o2)).
  { intros Hc. apply sub_quiet. apply quiet_app.
    - replace (("{" ++ bd ++ "}") ++ X) with ("{" ++ bd ++ "}" ++ X)
        by (now rewrite !append_assoc).
      exact (quiet_selector bd X sel Hs Hc).
    - exact (quiet_block bd X Hb). }
  destruct (split_selector sel) as [[p hd]|] eqn:Esel.
  - destruct (String.eqb_spec bd EmptyString) as [Hbe|Hbe].
    + apply Hcopy. now right.
    + destruct (split_selector_some bd X sel p hd Hs Esel)
        as (-> & Hhd & Hq).
      replace (((p ++ hd) ++ "{" ++ bd ++ "}") ++ X)
        with (p ++ (hd ++ "{" ++ bd ++ "}" ++ X))
        by (now rewrite !append_assoc).
      rewrite (sub_quiet _ f _ _ Hq).
      rewrite (sub_match_text _ f _ _ _
                 (qwidget_match_block hd bd X Hhd Hbe
                    (brace_free_not_rbrace _ Hb))).
      2:{ destruct hd; discriminate. }
      destruct (f (hd ++ "{" ++ bd ++ "}")) as [o|]; [|reflexivity].
      destruct (Re.sub qwidget_re f X) as [o2|]; [|reflexivity].
      now rewrite append_assoc.
  - apply Hcopy. now left.
Qed.

Lemma sheet_text_app rs1 : forall rs2 tail,
  sheet_text (rs1 ++ rs2) tail
  = sheet_text rs1 EmptyString ++ sheet_text rs2 tail.
Proof.
  induction rs1 as [|r rs1 IH]; intros rs2 tail; simpl; [reflexivity|].
  now rewrite IH, append_assoc.
Qed.

(** The scan of rules followed by any text is the scan of the rules and
    the scan of the text. *)
Lemma rules_scan f Y : forall rs,
  forallb flat_rule rs = true ->
  Re.sub qwidget_re f (sheet_text rs EmptyString ++ Y)
  = do o1 <- Re.sub qwidget_re f (sheet_text rs EmptyString);
    do o2 <- Re.sub qwidget_re f Y;
    Some (o1 ++ o2).
Proof.
  induction rs as [|r rs IH]; intros Hf.
  - simpl. change (Re.sub qwidget_re f EmptyString) with (Some EmptyString).
    destruct (Re.sub qwidget_re f Y); reflexivity.
  - simpl in Hf. apply andb_true_iff in Hf as [Hr Hrs].
    cbn [sheet_text]. rewrite append_assoc.
    rewrite !(rule_scan f r _ Hr), (IH Hrs).
    destruct (rule_out f r) as [o|]; [|reflexivity].
    destruct (Re.sub qwidget_re f (sheet_text rs EmptyString)) as [o1|];
      [|reflexivity].
    destruct (Re.sub qwidget_re f Y) as [o2|]; [|reflexivity].
    now rewrite append_assoc.
Qed.

(** One rule of a stylesheet: the scan writes what it writes for the
    rules before, for this rule, and for what follows. *)
Lemma sheet_focus f rs1 r rs2 tail out :
  forallb flat_rule rs1 = true -> flat_rule r = true ->
  rule_out f r = Some out ->
  Re.sub qwidget_re f (sheet_text (rs1 ++ r :: rs2) tail)
  = do o1 <- Re.sub qwidget_re f (sheet_text rs1 EmptyString);
    do o2 <- Re.sub qwidget_re f (sheet_text rs2 tail);
    Some (o1 ++ out ++ o2).
Proof.
  intros H1 Hr Hout.
  rewrite sheet_text_app, (rules_scan f _ rs1 H1).
  cbn [sheet_text]. rewrite (rule_scan f r _ Hr), Hout.
  destruct (Re.sub qwidget_re f (sheet_text rs1 EmptyString)); [|reflexivity].
  destruct (Re.sub qwidget_re f (sheet_text rs2 tail)); reflexivity.
Qed.

(** ** The scan of a block for font-size declarations *)

Lemma get_reads l : forall n p c,
  String.get n l = Some p -> Re.eq_nocase p c = true -> reads l c = true.
Proof.
  unfold reads.
  induction l as [|x l IH]; intros n p c Hg Hc; [discriminate|].
  simpl. destruct n as [|n]; simpl in Hg.
  - inversion Hg; subst x. now rewrite Hc.
  - destruct (Re.eq_nocase x c); [reflexivity|]. simpl.
    exact (IH n p c Hg Hc).
Qed.

(** Literals matched in [a ++ t] are matched in [a], or go on in [t]. *)
Lemma lits_straddle l : forall a t q s2,
  Re.match_here (Re.lits l) (a ++ t) = Some (q, s2) ->
  (exists r, Re.match_here (Re.lits l) a = Some r)
  \/ (exists c t' p,
        t = String c t' /\ String.get (String.length a) l = Some p
        /\ Re.eq_nocase p c = true).
Proof.
  induction l as [|p l IH]; intros a t q s2 H.
  - left. simpl. eauto.
  - destruct a as [|x a].
    + right. cbn [append Re.lits Re.match_here] in H.
      destruct t as [|c t']; [discriminate|].
      destruct (Re.eq_nocase p c) eqn:Hc; [|discriminate].
      exists c, t', p. auto.
    + cbn [append Re.lits Re.match_here] in H.
      destruct (Re.eq_nocase p x) eqn:Hx; [|discriminate].
      apply took_some in H as (q' & -> & H).
      destruct (IH a t q' s2 H)
        as [[[m rest] Hr] | (c & t' & p0 & -> & Hg & Hc)].
      * left. cbn [Re.lits Re.match_here]. rewrite Hx, Hr. simpl. eauto.
      * right. exists c, t', p0. auto.
Qed.

Lemma f_not_later c :
  Re.eq_nocase "f" c = true -> reads "ont-size:" c = false.
Proof. each_char c. Qed.

Lemma qwidget_not_f c :
  reads "QWidget" c = true -> negb (Re.eq_nocase "f" c) = true.
Proof. each_char c. Qed.

Lemma space_not_f c :
  is_space c = true -> negb (Re.eq_nocase "f" c) = true.
Proof. each_char c. Qed.

(** Nothing matches in text where the name does not stand. *)
Lemma quiet_gap t : forall gap,
  no_font_size gap = true -> calm t ->
  Re.quiet font_size_re gap t = true.
Proof.
  unfold no_font_size.
  induction gap as [|c gap IH]; intros Hg Ht; [reflexivity|].
  cbn [Re.occurs] in Hg.
  destruct (Re.match_here (Re.lits "font-size:") (String c gap)) eqn:E0;
    [discriminate|].
  cbn [Re.quiet]. rewrite (IH Hg Ht).
  unfold font_size_re. rewrite match_lits.
  destruct (Re.match_here (Re.lits "font-size:") (String c gap ++ t))
    as [[q s2]|] eqn:E1; [|reflexivity].
  exfalso.
  destruct (lits_straddle _ _ _ _ _ E1)
    as [[r Hr] | (c0 & t' & p & -> & Hget & Hc)].
  - congruence.
  - simpl in Ht. change (String.length (String c gap))
      with (S (String.length gap)) in Hget.
    change (String.get (S (String.length gap)) "font-size:")
      with (String.get (String.length gap) "ont-size:") in Hget.
    rewrite (get_reads _ _ _ _ Hget Hc) in Ht. discriminate.
Qed.

(** Nor in text without the letter [f]. *)
Lemma quiet_no_f t : forall a,
  all_chars (fun c => negb (Re.eq_nocase "f" c)) a = true ->
  Re.quiet font_size_re a t = true.
Proof.
  induction a as [|c a IH]; intros Ha; [reflexivity|].
  simpl in Ha. apply andb_true_iff in Ha as [Hc Ha].
  cbn [Re.quiet]. rewrite (IH Ha).
  unfold font_size_re. rewrite match_lits.
  change (String c a ++ t) with (String c (a ++ t)).
  cbn [Re.lits Re.match_here].
  apply negb_true_iff in Hc. now rewrite Hc.
Qed.

Lemma quiet_head hd t :
  qwidget_head hd = true ->
  Re.quiet font_size_re (hd ++ "{") t = true.
Proof.
  intros H. apply quiet_no_f.
  apply qwidget_head_split in H as (q & w & -> & Hq & Hw).
  rewrite !all_chars_app. apply same_nocase_reads in Hq.
  rewrite (all_chars_impl _ _ _ qwidget_not_f Hq).
  rewrite (all_chars_impl _ _ _ space_not_f Hw). reflexivity.
Qed.

Lemma no_semi_all s :
  has_char ";" s = false -> all_chars not_semi s = true.
Proof. unfold has_char. intros H. now apply negb_false_iff in H. Qed.

Lemma font_size_decl_parts d :
  font_size_decl d = true ->
  Re.same_nocase "font-size:" (d_name d) = true
  /\ d_value d <> EmptyString
  /\ all_chars not_semi (d_value d) = true.
Proof.
  unfold font_size_decl. intros H.
  apply andb_true_iff in H as [H Hs]. apply andb_true_iff in H as [Hn Hv].
  repeat split; [exact Hn | | ].
  - apply negb_true_iff in Hv. now apply String.eqb_neq in Hv.
  - apply no_semi_all. now apply negb_true_iff in Hs.
Qed.

Lemma calm_name l t :
  Re.same_nocase "font-size:" l = true -> calm (l ++ t).
Proof.
  unfold Re.same_nocase. destruct l as [|c l]; [discriminate|].
  cbn [Re.lits Re.match_here]. intros H. simpl.
  destruct (Re.eq_nocase "f" c) eqn:Hc; [|discriminate].
  now apply f_not_later.
Qed.

Lemma calm_decls ds :
  decls_ok ds = true -> calm (decls_text decl_text ds ++ "}").
Proof.
  destruct ds as [|[d gap] ds]; intros H; [reflexivity|].
  simpl in H. apply andb_true_iff in H as [H _].
  apply andb_true_iff in H as [Hd _].
  apply font_size_decl_parts in Hd as (Hn & _).
  cbn [decls_text]. unfold decl_text. rewrite !append_assoc.
  now apply calm_name.
Qed.

Section Declarations.

Variable repl : string.

(** The scan of declarations and the text between them: each
    declaration is replaced, the text between is copied. *)
Lemma decls_scan : forall ds,
  decls_ok ds = true ->
  Re.sub font_size_re (fun _ : string => Some repl)
    (decls_text decl_text ds ++ "}")
  = Some (decls_text (fun _ => repl) ds ++ "}").
Proof.
  induction ds as [|[d gap] ds IH]; intros H; [reflexivity|].
  pose proof H as H0.
  simpl in H. apply andb_true_iff in H as [H Hds].
  apply andb_true_iff in H as [Hd Hg]. simpl in Hg.
  apply font_size_decl_parts in Hd as (Hn & Hv & Hns).
  cbn [decls_text]. unfold decl_text at 1.
  replace (((d_name d ++ d_value d ++ ";") ++ gap
            ++ decls_text decl_text ds) ++ "}")
    with (d_name d ++ d_value d ++ ";"
          ++ (gap ++ decls_text decl_text ds ++ "}"))
    by (now rewrite !append_assoc).
  rewrite (sub_match_text _ (fun _ : string => Some repl) _ _ _
             (font_match_decl _ _ _ Hn Hv Hns)).
  2:{ destruct (d_name d); [|discriminate].
      destruct (d_value d); [congruence | discriminate]. }
  cbv beta.
  rewrite (sub_quiet _ (fun _ : string => Some repl) _ _
             (quiet_gap _ gap Hg (calm_decls ds Hds))).
  rewrite (IH Hds). now rewrite !append_assoc.
Qed.

(** The scan of a whole block. *)
Lemma block_scan hd g0 ds :
  qwidget_head hd = true -> no_font_size g0 = true ->
  decls_ok ds = true ->
  Re.sub font_size_re (fun _ : string => Some repl)
    (hd ++ "{" ++ (g0 ++ decls_text decl_text ds) ++ "}")
  = Some (hd ++ "{" ++ (g0 ++ decls_text (fun _ => repl) ds) ++ "}").
Proof.
  intros Hhd Hg Hds.
  replace (hd ++ "{" ++ (g0 ++ decls_text decl_text ds) ++ "}")
    with (((hd ++ "{") ++ g0) ++ decls_text decl_text ds ++ "}")
    by (now rewrite !append_assoc).
  rewrite (sub_quiet _ (fun _ : string => Some repl)
             (decls_text decl_text ds ++ "}")
             ((hd ++ "{") ++ g0)).
  - rewrite (decls_scan ds Hds). now rewrite !append_assoc.
  - apply quiet_app.
    + now apply quiet_head.
    + exact (quiet_gap _ g0 Hg (calm_decls ds Hds)).
Qed.

End Declarations.

(** ** The font-size policy on a stylesheet *)

Lemma has_char_app c a b :
  has_char c (a ++ b) = has_char c a || has_char c b.
Proof. unfold has_char. now rewrite all_chars_app, negb_andb. Qed.

Lemma modify_auto s :
  modify_font_size "Auto" s = Re.sub qwidget_re remove_font_size s.
Proof. reflexivity. Qed.

Lemma modify_size font_size s :
  font_size <> "Auto" ->
  modify_font_size font_size s
  = Re.sub qwidget_re (replace_font_size font_size) s.
Proof.
  intros H. unfold modify_font_size.
  apply String.eqb_neq in H. now rewrite H.
Qed.

Lemma qwidget_selector_split sel :
  qwidget_selector sel = true ->
  exists p hd, split_selector sel = Some (p, hd).
Proof.
  unfold qwidget_selector.
  destruct (split_selector sel) as [[p hd]|]; [eauto | discriminate].
Qed.

Lemma body_empty g0 f ds :
  g0 ++ decls_text decl_text ds = EmptyString ->
  g0 ++ decls_text f ds = EmptyString.
Proof.
  destruct g0; [|discriminate]. destruct ds as [|[d gap] ds]; [reflexivity|].
  simpl. unfold decl_text.
  destruct (d_name d); [|discriminate].
  destruct (d_value d); discriminate.
Qed.

(** What the scan writes for a [QWidget] block whose font-size
    declarations all end with a semicolon. *)
Lemma rule_out_decls repl sel g0 ds :
  brace_free sel = true -> qwidget_selector sel = true ->
  no_font_size g0 = true -> decls_ok ds = true ->
  rule_out (Re.sub font_size_re (fun _ => Some repl))
           (Rule sel (g0 ++ decls_text decl_text ds))
  = Some (sel ++ "{" ++ (g0 ++ decls_text (fun _ => repl) ds) ++ "}").
Proof.
  intros Hbf Hsel Hg Hds.
  apply qwidget_selector_split in Hsel as (p & hd & Hs).
  unfold rule_out, rule_text. cbn [selector body]. rewrite Hs.
  destruct (String.eqb_spec (g0 ++ decls_text decl_text ds) EmptyString)
    as [He|He].
  - rewrite He, (body_empty g0 (fun _ => repl) ds He). reflexivity.
  - destruct (split_selector_some EmptyString EmptyString sel p hd Hbf Hs)
      as (-> & Hhd & _).
    rewrite (block_scan repl hd g0 ds Hhd Hg Hds).
    now rewrite !append_assoc.
Qed.

(** C1 (amended): in a stylesheet of rules, none inside another, take a
    block whose selector ends with [QWidget] and whose body is text [g0]
    followed by font-size declarations, each ended by a semicolon, with
    other text between them.  Under the policy [Auto] every one of these
    declarations is removed from the block; under a size [font_size]
    without a backslash, when the name stands in the block in lower
    case, every one is replaced by [font-size: font_size;].  The text
    around the declarations stays, and the rules before and after are
    rewritten on their own. *)
Theorem font_size_declarations_rewritten :
  forall (rs1 rs2 : list rule) (tail sel g0 : string)
         (ds : list (decl * string)),
    forallb flat_rule rs1 = true ->
    flat_rule (Rule sel (g0 ++ decls_text decl_text ds)) = true ->
    qwidget_selector sel = true ->
    no_font_size g0 = true ->
    decls_ok ds = true ->
    modify_font_size "Auto"
      (sheet_text (rs1 ++ Rule sel (g0 ++ decls_text decl_text ds) :: rs2)
                  tail)
    = (do o1 <- modify_font_size "Auto" (sheet_text rs1 EmptyString);
       do o2 <- modify_font_size "Auto" (sheet_text rs2 tail);
       Some (o1
             ++ (sel ++ "{"
                 ++ (g0 ++ decls_text (fun _ => EmptyString) ds) ++ "}")
             ++ o2))
    /\ forall font_size : string,
         font_size <> "Auto" ->
         has_char backslash font_size = false ->
         contains "font-size:" (g0 ++ decls_text decl_text ds) = true ->
         modify_font_size font_size
           (sheet_text
              (rs1 ++ Rule sel (g0 ++ decls_text decl_text ds) :: rs2) tail)
         = (do o1 <- modify_font_size font_size (sheet_text rs1 EmptyString);
            do o2 <- modify_font_size font_size (sheet_text rs2 tail);
            Some (o1
                  ++ (sel ++ "{"
                      ++ (g0 ++ decls_text
                                  (fun _ => "font-size: " ++ font_size ++ ";")
                                  ds) ++ "}")
                  ++ o2)).
Proof.
  intros rs1 rs2 tail sel g0 ds H1 Hr Hsel Hg Hds.
  pose proof Hr as Hbf. unfold flat_rule in Hbf. cbn [selector body] in Hbf.
  apply andb_true_iff in Hbf as [Hbf _].
  split.
  - rewrite !modify_auto. apply sheet_focus; trivial.
    exact (rule_out_decls EmptyString sel g0 ds Hbf Hsel Hg Hds).
  - intros font_size Hna Hbs Hin. rewrite !(modify_size _ _ Hna).
    apply sheet_focus; trivial.
    rewrite <- (rule_out_decls ("font-size: " ++ font_size ++ ";")
                  sel g0 ds Hbf Hsel Hg Hds).
    unfold rule_out. cbn [selector body].
    destruct (split_selector sel) as [[p hd]|]; [|reflexivity].
    destruct (String.eqb (g0 ++ decls_text decl_text ds) EmptyString);
      [reflexivity|].
    unfold replace_font_size, Re.sub_str.
    rewrite (contains_app_l _ hd _
               (contains_app_l _ "{" _ (contains_app_r _ _ "}" Hin))).
    rewrite !has_char_app, Hbs. reflexivity.
Qed.

Lemma font_size_declarations_rewritten_witness :
  modify_font_size "Auto"
    "QLabel { color: blue; } QWidget { color: red; font-size: 10pt; margin: 0; Font-Size:9pt;} QMenu { font-size: 8pt; }"
  = Some "QLabel { color: blue; } QWidget { color: red;  margin: 0; } QMenu { font-size: 8pt; }"
  /\ modify_font_size "12pt"
    "QLabel { color: blue; } QWidget { color: red; font-size: 10pt; margin: 0; Font-Size:9pt;} QMenu { font-size: 8pt; }"
  = Some "QLabel { color: blue; } QWidget { color: red; font-size: 12pt; margin: 0; font-size: 12pt;} QMenu { font-size: 8pt; }".
Proof.
  destruct (font_size_declarations_rewritten
              [Rule "QLabel " " color: blue; "]
              [Rule " QMenu " " font-size: 8pt; "] EmptyString
              " QWidget " " color: red; "
              [(Decl "font-size:" " 10pt", " margin: 0; ");
               (Decl "Font-Size:" "9pt", EmptyString)]
              eq_refl eq_refl eq_refl eq_refl eq_refl) as [Ha Hs].
  split.
  - exact Ha.
  - exact (Hs "12pt" ltac:(discriminate) eq_refl eq_refl).
Defined.

(** C1, as stated, fails: a declaration that ends at the closing brace,
    without a semicolon, is neither removed nor replaced; and a
    declaration whose name is not in lower case is not replaced under a
    size policy: a second declaration is added after it. *)
Lemma font_size_declaration_kept :
  modify_font_size "Auto" "QWidget { color: red; font-size: 10pt }"
  = Some "QWidget { color: red; font-size: 10pt }"
  /\ modify_font_size "12pt" "QWidget { color: red; font-size: 10pt }"
     = Some "QWidget { color: red; font-size: 10pt }"
  /\ modify_font_size "12pt" "QWidget { Font-Size: 10pt; }"
     = Some "QWidget { Font-Size: 10pt;  font-size: 12pt; }".
Proof. repeat split; vm_compute; reflexivity. Qed.

(** C2, as stated, fails.  A [QWidget] block with nothing between its
    braces has no font-size declaration, and none is added to it: the
    pattern asks for a character between the braces.  In a block whose
    last declaration has no semicolon, the added text runs into the
    value of that declaration.  In a block that names [font-size:]
    outside a declaration, here in a comment, nothing is appended, and
    the text up to the next semicolon is replaced. *)
Lemma font_size_declaration_not_appended :
  modify_font_size "12pt" "QWidget {} QLabel { color: red; }"
  = Some "QWidget {} QLabel { color: red; }"
  /\ modify_font_size "12pt" "QWidget { color: red; margin: 0 }"
     = Some "QWidget { color: red; margin: 0  font-size: 12pt; }"
  /\ modify_font_size "12pt" "QWidget { /* font-size: big */ color: red; }"
     = Some "QWidget { /* font-size: 12pt; }".
Proof. repeat split; vm_compute; reflexivity. Qed.

(** The text of the block after a size policy, when [font-size:] does not
    stand in it as the test of [replace_font_size] reads it. *)
Lemma block_text_appended :
  forall (font_size : string) (rs1 rs2 : list rule) (tail : string)
         (r : rule),
    font_size <> "Auto" ->
    forallb flat_rule rs1 = true ->
    flat_rule r = true ->
    qwidget_selector (selector r) = true ->
    body r <> EmptyString ->
    contains "font-size:" (rule_text r) = false ->
    modify_font_size font_size (sheet_text (rs1 ++ r :: rs2) tail)
    = (do o1 <- modify_font_size font_size (sheet_text rs1 EmptyString);
       do o2 <- modify_font_size font_size (sheet_text rs2 tail);
       Some (o1
             ++ (selector r ++ "{" ++ body r
                 ++ " font-size: " ++ font_size ++ "; }")
             ++ o2)).
Proof.
  intros font_size rs1 rs2 tail r Hna H1 Hr Hsel Hb Hin.
  rewrite !(modify_size _ _ Hna). apply sheet_focus; trivial.
  apply qwidget_selector_split in Hsel as (p & hd & Hs).
  pose proof Hr as Hbf. unfold flat_rule in Hbf.
  apply andb_true_iff in Hbf as [Hbf _].
  destruct (split_selector_some EmptyString EmptyString _ p hd Hbf Hs)
    as (Esel & _ & _).
  unfold rule_out. rewrite Hs.
  apply String.eqb_neq in Hb. rewrite Hb.
  unfold replace_font_size.
  unfold rule_text in Hin. rewrite Esel, append_assoc in Hin.
  rewrite (contains_suffix_false _ _ _ Hin).
  replace (hd ++ "{" ++ body r ++ "}") with ((hd ++ "{" ++ body r) ++ "}")
    by (now rewrite !append_assoc).
  rewrite but_last_snoc, Esel. now rewrite !append_assoc.
Qed.

Lemma quiet_drop r t : forall a b,
  Re.quiet r (a ++ b) t = true -> Re.quiet r b t = true.
Proof.
  induction a as [|c a IH]; intros b H; [exact H|].
  change (String c a ++ b) with (String c (a ++ b)) in H.
  cbn [Re.quiet] in H.
  destruct (Re.match_here r _); [discriminate|]. now apply IH.
Qed.

Lemma prefix_split : forall n b,
  prefix n b = true -> exists rest, b = n ++ rest.
Proof.
  induction n as [|c n IH]; intros b H.
  - now exists b.
  - destruct b as [|d b]; [discriminate|]. simpl in H.
    destruct (ascii_dec c d) as [->|]; [|discriminate].
    apply IH in H as (rest & ->). now exists rest.
Qed.

Lemma contains_split n : forall x,
  contains n x = true -> exists a rest, x = a ++ n ++ rest.
Proof.
  induction x as [|c x IH]; intros H; cbn [contains] in H;
    apply orb_true_iff in H as [H|H].
  - apply prefix_split in H as (rest & E). now exists EmptyString, rest.
  - discriminate.
  - apply prefix_split in H as (rest & E). now exists EmptyString, rest.
  - apply IH in H as (a & rest & ->). now exists (String c a), rest.
Qed.

(** Where the property is named nowhere, the test of
    [replace_font_size] finds nothing. *)
Lemma unnamed_not_contained (s : string) :
  no_font_size_name s = true -> contains "font-size:" s = false.
Proof.
  intros H. destruct (contains "font-size:" s) eqn:E; [|reflexivity].
  apply contains_split in E as (a & rest & ->).
  unfold no_font_size_name in H. apply quiet_drop in H.
  vm_compute in H. discriminate H.
Qed.

Lemma properties_text_app : forall ps qs,
  properties_text (ps ++ qs) = properties_text ps ++ properties_text qs.
Proof.
  induction ps as [|p ps IH]; intros qs; [reflexivity|].
  cbn [app properties_text]. now rewrite IH, append_assoc.
Qed.

(** C2 (amended): in a stylesheet of rules, none inside another, take a
    block whose selector ends with [QWidget] and whose body is not
    empty and is a list of declarations, each with its semicolon, and
    blanks after the last; the name [font-size] with a colon, in any
    case of letters, blanks before the colon or not, stands nowhere in
    the block.  Under a size policy the declarations of the block are
    then the same declarations, in the same order, and after them one
    more: [font-size] with the requested value; the selector stays, and
    the rules before and after are rewritten on their own.  The new
    declaration is well formed when the value has no semicolon. *)
Theorem font_size_declaration_appended :
  forall (font_size : string) (rs1 rs2 : list rule)
         (tail sel blank : string) (ps : list property),
    font_size <> "Auto" ->
    forallb flat_rule rs1 = true ->
    flat_rule (Rule sel (properties_text ps ++ blank)) = true ->
    qwidget_selector sel = true ->
    properties_text ps ++ blank <> EmptyString ->
    forallb property_ok ps = true ->
    all_chars is_space blank = true ->
    no_font_size_name (rule_text (Rule sel (properties_text ps ++ blank)))
    = true ->
    modify_font_size font_size
      (sheet_text (rs1 ++ Rule sel (properties_text ps ++ blank) :: rs2)
                  tail)
    = (do o1 <- modify_font_size font_size (sheet_text rs1 EmptyString);
       do o2 <- modify_font_size font_size (sheet_text rs2 tail);
       Some (o1
             ++ rule_text
                  (Rule sel
                     (properties_text
                        (ps ++ [Property (blank ++ " ") "font-size"
                                         (" " ++ font_size)])
                      ++ " "))
             ++ o2))
    /\ (has_char ";" font_size = false ->
        forallb property_ok
          (ps ++ [Property (blank ++ " ") "font-size" (" " ++ font_size)])
        = true).
Proof.
  intros font_size rs1 rs2 tail sel blank ps Hna H1 Hr Hsel Hb Hok Hbl Hq.
  split.
  - rewrite (block_text_appended font_size rs1 rs2 tail _ Hna H1 Hr Hsel Hb
               (unnamed_not_contained _ Hq)).
    destruct (modify_font_size font_size (sheet_text rs1 EmptyString));
      [|reflexivity].
    destruct (modify_font_size font_size (sheet_text rs2 tail));
      [|reflexivity].
    do 2 f_equal. unfold rule_text. cbn [selector body].
    rewrite properties_text_app. cbn [properties_text].
    unfold property_text. cbn [p_lead p_name p_value].
    rewrite !append_assoc. reflexivity.
  - intros Hfs. rewrite forallb_app, Hok. cbn [forallb andb].
    unfold property_ok. cbn [p_lead p_name p_value].
    rewrite all_chars_app, Hbl, (has_char_app ";" " " font_size), Hfs.
    reflexivity.
Qed.

Lemma font_size_declaration_appended_witness :
  modify_font_size "12pt"
    "QLabel { font-size: 9pt; } QWidget { color: red; margin: 0; } QWidget{a:b;}"
  = Some "QLabel { font-size: 9pt; } QWidget { color: red; margin: 0;  font-size: 12pt; } QWidget{a:b; font-size: 12pt; }"
  /\ forallb property_ok
       [Property " " "color" " red"; Property " " "margin" " 0";
        Property "  " "font-size" " 12pt"]
     = true.
Proof.
  split.
  - exact (proj1 (font_size_declaration_appended "12pt"
                    [Rule "QLabel " " font-size: 9pt; "]
                    [Rule " QWidget" "a:b;"] EmptyString " QWidget " " "
                    [Property " " "color" " red";
                     Property " " "margin" " 0"]
                    ltac:(discriminate) eq_refl eq_refl eq_refl
                    ltac:(discriminate) eq_refl eq_refl eq_refl)).
  - exact (proj2 (font_size_declaration_appended "12pt"
                    [Rule "QLabel " " font-size: 9pt; "]
                    [Rule " QWidget" "a:b;"] EmptyString " QWidget " " "
                    [Property " " "color" " red";
                     Property " " "margin" " 0"]
                    ltac:(discriminate) eq_refl eq_refl eq_refl
                    ltac:(discriminate) eq_refl eq_refl eq_refl)
                 eq_refl).
Defined.

(** C7, as stated, fails: the pattern knows nothing of comments.  A
    comment that names [QWidget] and opens a brace makes the block of
    [QLabel] after it the end of a match: its font-size declaration is
    taken away under [Auto] and set under a size policy. *)
Lemma commented_selector_rewritten :
  modify_font_size "Auto" "/* QWidget { */ QLabel { font-size: 9pt; }"
  = Some "/* QWidget { */ QLabel {  }"
  /\ modify_font_size "12pt" "/* QWidget { */ QLabel { font-size: 9pt; }"
     = Some "/* QWidget { */ QLabel { font-size: 12pt; }".
Proof. split; vm_compute; reflexivity. Qed.

(** C7 (amended): in a stylesheet of rules, none inside another and no
    brace outside them before the block, a block whose selector does not
    end with [QWidget] (in any case of letters, blanks after it) is
    copied as it is, whatever the policy; the rules before and after
    are rewritten on their own. *)
Theorem other_selector_unchanged :
  forall (font_size : string) (rs1 rs2 : list rule) (tail : string)
         (r : rule),
    forallb flat_rule rs1 = true ->
    flat_rule r = true ->
    qwidget_selector (selector r) = false ->
    modify_font_size font_size (sheet_text (rs1 ++ r :: rs2) tail)
    = (do o1 <- modify_font_size font_size (sheet_text rs1 EmptyString);
       do o2 <- modify_font_size font_size (sheet_text rs2 tail);
       Some (o1 ++ rule_text r ++ o2)).
Proof.
  intros font_size rs1 rs2 tail r H1 Hr Hsel.
  assert (Hout : forall f, rule_out f r = Some (rule_text r)).
  { intros f. unfold rule_out. unfold qwidget_selector in Hsel.
    destruct (split_selector (selector r)) as [[p hd]|];
      [discriminate | reflexivity]. }
  unfold modify_font_size.
  destruct (String.eqb font_size "Auto"); apply sheet_focus; trivial.
Qed.

Lemma other_selector_unchanged_witness :
  modify_font_size "Auto"
    "QWidget { font-size: 10pt; } QPushButton { font-size: 9pt; } QWidget { font-size: 8pt; }"
  = Some "QWidget {  } QPushButton { font-size: 9pt; } QWidget {  }"
  /\ modify_font_size "12pt"
    "QWidget { font-size: 10pt; } QPushButton:hover { font-size: 9pt; } tail"
  = Some "QWidget { font-size: 12pt; } QPushButton:hover { font-size: 9pt; } tail".
Proof.
  split.
  - exact (other_selector_unchanged "Auto"
             [Rule "QWidget " " font-size: 10pt; "]
             [Rule " QWidget " " font-size: 8pt; "] EmptyString
             (Rule " QPushButton " " font-size: 9pt; ")
             eq_refl eq_refl eq_refl).
  - exact (other_selector_unchanged "12pt"
             [Rule "QWidget " " font-size: 10pt; "]
             [] " tail"
             (Rule " QPushButton:hover " " font-size: 9pt; ")
             eq_refl eq_refl eq_refl).
Defined.

(** ** The settings document *)

Lemma scan_escape_char c t :
  Json.scanstring (Json.escape_char c ++ t)
  = Json.push c (Json.scanstring t).
Proof. destruct c as [[] [] [] [] [] [] [] []]; reflexivity. Qed.

(** A string that was encoded is read back, up to its closing quote. *)
Lemma scan_escape t : forall s,
  Json.scanstring (Json.escape s ++ String dquote t) = Json.Parsed (s, t).
Proof.
  induction s as [|c s IH]; [reflexivity|].
  cbn [Json.escape]. rewrite append_assoc, scan_escape_char, IH.
  reflexivity.
Qed.

Lemma encode_string_app s t :
  Json.encode_string s ++ t
  = String dquote (Json.escape s ++ String dquote t).
Proof.
  unfold Json.encode_string. simpl. now rewrite append_assoc.
Qed.

(** The members that were written are read back, one after the other. *)
Lemma members_dump rest : forall d fuel acc,
  d <> [] -> List.length d <= fuel ->
  Json.members fuel (Json.dump_members d ++ "}" ++ rest) acc
  = Json.Parsed (fold_left put d acc, rest).
Proof.
  induction d as [|[k v] d IH]; intros fuel acc Hd Hf; [congruence|].
  destruct fuel as [|fuel]; [simpl in Hf; lia|].
  cbn [Json.dump_members].
  rewrite !append_assoc, encode_string_app.
  cbn [Json.members]. change (Ascii.eqb dquote dquote) with true.
  cbn [negb]. rewrite scan_escape.
  change (": " ++ ?x) with (String ":" (String " " x)).
  cbn [Json.skip_ws]. change (Json.is_ws ":") with false. cbv iota.
  change (Ascii.eqb ":" ":") with true. cbn [negb Json.skip_ws].
  change (Json.is_ws " ") with true. cbv iota.
  rewrite encode_string_app. cbn [Json.skip_ws].
  change (Json.is_ws dquote) with false. cbv iota.
  change (Ascii.eqb dquote dquote) with true. cbn [negb].
  rewrite scan_escape.
  destruct d as [|kv d].
  - reflexivity.
  - change ((", " ++ Json.dump_members (kv :: d)) ++ "}" ++ rest)
      with (String "," (String " "
              (Json.dump_members (kv :: d) ++ "}" ++ rest))).
    cbn [Json.skip_ws]. change (Json.is_ws ",") with false. cbv iota.
    change (Ascii.eqb "," "}") with false.
    change (Ascii.eqb "," ",") with true. cbv iota.
    cbn [Json.skip_ws]. change (Json.is_ws " ") with true. cbv iota.
    assert (Hskip : forall x, Json.skip_ws (Json.dump_members (kv :: d) ++ x)
                              = Json.dump_members (kv :: d) ++ x).
    { intros x. destruct kv as [k' v']. cbn [Json.dump_members].
      rewrite !append_assoc, encode_string_app. reflexivity. }
    rewrite Hskip. rewrite (IH fuel (Json.set k v acc)).
    + reflexivity.
    + discriminate.
    + simpl in Hf |- *. lia.
Qed.

Lemma set_fresh k v : forall d,
  ~ In k (Json.keys d) -> Json.set k v d = (d ++ [(k, v)])%list.
Proof.
  induction d as [|[k' v'] d IH]; intros H; [reflexivity|].
  simpl in *. destruct (String.eqb_spec k' k) as [->|Hne].
  - exfalso. auto.
  - rewrite IH; auto.
Qed.

Lemma fold_put_fresh : forall d acc,
  NoDup (Json.keys (acc ++ d)%list) -> fold_left put d acc = (acc ++ d)%list.
Proof.
  induction d as [|[k v] d IH]; intros acc H.
  - now rewrite app_nil_r.
  - cbn [fold_left]. unfold put at 2. cbn [fst snd].
    unfold Json.keys in H. rewrite map_app in H. simpl in H.
    rewrite set_fresh.
    + rewrite IH; [now rewrite <- app_assoc|].
      unfold Json.keys. rewrite <- app_assoc, map_app. exact H.
    + apply NoDup_remove_2 in H. intros Hin. apply H.
      apply in_or_app. now left.
Qed.

Lemma dump_members_length : forall d,
  List.length d <= String.length (Json.dump_members d).
Proof.
  induction d as [|[k v] d IH]; [simpl; lia|].
  cbn [Json.dump_members List.length]. rewrite !length_append.
  assert (Hk : 1 <= String.length (Json.encode_string k))
    by (unfold Json.encode_string; simpl; lia).
  assert (Hd : List.length d
               <= String.length
                    match d with
                    | [] => EmptyString
                    | _ :: _ => ", " ++ Json.dump_members d
                    end).
  { destruct d as [|kv d]; [simpl; lia|].
    rewrite length_append. lia. }
  lia.
Qed.

(** Round trip: a mapping that was dumped is loaded back. *)
Lemma loads_dumps d :
  NoDup (Json.keys d) -> Json.loads (Json.dumps d) = Json.Parsed d.
Proof.
  intros Hnd. destruct d as [|[k v] d]; [reflexivity|].
  unfold Json.loads, Json.dumps.
  change ("{" ++ ?x) with (String "{" x).
  cbn [Json.skip_ws]. change (Json.is_ws "{") with false. cbv iota.
  change (Ascii.eqb "{" "{") with true. cbv iota.
  set (txt := Json.dump_members ((k, v) :: d) ++ "}").
  remember (String.length (String "{" txt)) as fuel eqn:Hfuel.
  assert (Hle : List.length ((k, v) :: d) <= fuel).
  { subst fuel txt. cbn [String.length]. rewrite length_append.
    pose proof (dump_members_length ((k, v) :: d)). lia. }
  pose proof (members_dump EmptyString ((k, v) :: d) fuel []
                ltac:(discriminate) Hle) as Hm.
  rewrite (fold_put_fresh _ [] Hnd) in Hm. simpl app in Hm.
  change (Json.dump_members ((k, v) :: d) ++ "}" ++ EmptyString)
    with txt in Hm.
  assert (Htxt : exists rest, txt = String dquote rest).
  { unfold txt. cbn [Json.dump_members].
    rewrite !append_assoc, encode_string_app. eauto. }
  destruct Htxt as [rest Htxt]. rewrite Htxt in *.
  cbn [Json.skip_ws]. change (Json.is_ws dquote) with false. cbv iota.
  change (Ascii.eqb dquote "}") with false. cbv iota.
  rewrite Hm. reflexivity.
Qed.

Lemma get_set_same k v : forall d, Json.get k (Json.set k v d) = Some v.
Proof.
  induction d as [|[k' v'] d IH]; simpl.
  - now rewrite String.eqb_refl.
  - destruct (String.eqb k' k) eqn:E; simpl; rewrite E; auto.
Qed.

Lemma get_set_other k k' v : forall d,
  k <> k' -> Json.get k (Json.set k' v d) = Json.get k d.
Proof.
  intros d Hne. induction d as [|[k0 v0] d IH]; simpl.
  - apply not_eq_sym in Hne. apply String.eqb_neq in Hne. now rewrite Hne.
  - destruct (String.eqb_spec k0 k') as [->|H0]; simpl.
    + apply not_eq_sym in Hne. apply String.eqb_neq in Hne. now rewrite Hne.
    + now rewrite IH.
Qed.

Lemma in_keys_set x k v : forall d,
  In x (Json.keys (Json.set k v d)) -> x = k \/ In x (Json.keys d).
Proof.
  induction d as [|[k' v'] d IH]; simpl.
  - intros [H|[]]; auto.
  - destruct (String.eqb k' k); simpl; intros [H|H]; auto.
    destruct (IH H); auto.
Qed.

Lemma set_nodup k v : forall d,
  NoDup (Json.keys d) -> NoDup (Json.keys (Json.set k v d)).
Proof.
  induction d as [|[k' v'] d IH]; simpl; intros H.
  - repeat constructor. auto.
  - inversion H as [|? ? Hin Hd]; subst.
    destruct (String.eqb_spec k' k) as [->|Hne]; simpl.
    + constructor; auto.
    + constructor; auto. intros Hx.
      apply in_keys_set in Hx as [Hx|Hx]; auto.
Qed.

(** The keys of a mapping that was read are distinct. *)
Lemma members_nodup : forall fuel s acc d rest,
  Json.members fuel s acc = Json.Parsed (d, rest) ->
  NoDup (Json.keys acc) -> NoDup (Json.keys d).
Proof.
  induction fuel as [|fuel IH]; intros s acc d rest H Hacc; [discriminate|].
  cbn [Json.members] in H. crack H.
  - inversion H; subst. now apply set_nodup.
  - eapply IH; [exact H|]. now apply set_nodup.
Qed.

Lemma finish_parsed d s d' :
  Json.finish d s = Json.Parsed d' -> d' = d.
Proof.
  unfold Json.finish. intros H. crack H. now inversion H.
Qed.

Lemma loads_nodup text d :
  Json.loads text = Json.Parsed d -> NoDup (Json.keys d).
Proof.
  unfold Json.loads. intros H. crack H.
  - apply finish_parsed in H. subst. constructor.
  - apply finish_parsed in H. subst.
    match goal with
    | E : Json.members _ _ _ = _ |- _ =>
        exact (members_nodup _ _ _ _ _ E (NoDup_nil _))
    end.
Qed.

Lemma skip_ws_blank : forall s,
  all_chars Json.is_ws s = true -> Json.skip_ws s = EmptyString.
Proof.
  induction s as [|c s IH]; simpl; [reflexivity|].
  intros H. apply andb_true_iff in H as [Hc Hs]. rewrite Hc. auto.
Qed.

(** ** The settings file *)

Section Settings.

Variable h : host.

Lemma read_written path text fs : write_file path text fs path = Some text.
Proof. unfold write_file. now rewrite String.eqb_refl. Qed.

Lemma load_saved d st :
  NoDup (Json.keys d) ->
  load_settings h (save_settings h d st) = Json.Parsed d.
Proof.
  intros Hnd. unfold load_settings, save_settings. cbn [files].
  rewrite read_written. now apply loads_dumps.
Qed.

End Settings.

(** C3: a mapping from strings to strings that is saved is loaded back
    as it was, whatever the files were before. *)
Theorem settings_round_trip :
  forall (h : host) (settings : Json.dict) (st : state),
    NoDup (Json.keys settings) ->
    load_settings h (save_settings h settings st) = Json.Parsed settings.
Proof. intros h settings st Hnd. now apply load_saved. Qed.

Lemma settings_round_trip_witness :
  load_settings linux
    (save_settings linux [("selected_theme", "X"); ("font_size", "12pt")]
       (State no_files EmptyString []))
  = Json.Parsed [("selected_theme", "X"); ("font_size", "12pt")].
Proof.
  apply (settings_round_trip linux
           [("selected_theme", "X"); ("font_size", "12pt")]).
  repeat constructor; simpl; intuition discriminate.
Defined.

(** C4, as stated, fails: [load_settings] has no handler, and a
    settings file that is not JSON makes it raise; so does
    [apply_styles], before it does anything. *)
Lemma malformed_settings_raise :
  let st := State (write_file (settings_file_path linux)
                     "{'selected_theme': 'Modo'}" no_files)
                  EmptyString [] in
  load_settings linux st = Json.Malformed
  /\ load_settings linux st <> Json.Parsed []
  /\ apply_styles linux None None st = (Raised, st).
Proof.
  vm_compute. repeat split. discriminate.
Qed.

(** C4 (amended): without a settings file [load_settings] gives the
    empty mapping; with a file that [save_settings] wrote it gives the
    mapping that was saved; with a file that is empty or blank, or any
    text that [json.load] rejects, it raises, and so does every call of
    [apply_styles], whatever its arguments, before it has changed
    anything.  The files here are texts that can be read: a settings
    file that cannot be opened or decoded is not among them. *)
Theorem load_settings_cases :
  forall (h : host) (st : state),
    (files st (settings_file_path h) = None ->
     load_settings h st = Json.Parsed [])
    /\ (forall settings,
          NoDup (Json.keys settings) ->
          files st (settings_file_path h) = Some (Json.dumps settings) ->
          load_settings h st = Json.Parsed settings)
    /\ (forall text,
          files st (settings_file_path h) = Some text ->
          all_chars Json.is_ws text = true
          \/ Json.loads text = Json.Malformed ->
          load_settings h st = Json.Malformed
          /\ forall selected_theme font_size : option string,
               apply_styles h selected_theme font_size st = (Raised, st)).
Proof.
  intros h st. split; [|split].
  - unfold load_settings. intros ->. reflexivity.
  - unfold load_settings. intros settings Hnd ->. now apply loads_dumps.
  - intros text Hf Hbad.
    assert (Hl : load_settings h st = Json.Malformed).
    { unfold load_settings. rewrite Hf. destruct Hbad as [Hb|Hm]; [|exact Hm].
      unfold Json.loads. now rewrite (skip_ws_blank _ Hb). }
    split; [exact Hl|].
    intros selected_theme font_size. unfold apply_styles. now rewrite Hl.
Qed.

Lemma load_settings_cases_witness :
  load_settings linux (State no_files EmptyString []) = Json.Parsed []
  /\ load_settings linux
       (State (write_file (settings_file_path linux)
                 (Json.dumps [("selected_theme", "Modo")]) no_files)
              EmptyString [])
     = Json.Parsed [("selected_theme", "Modo")]
  /\ load_settings linux
       (State (write_file (settings_file_path linux) "  " no_files)
              EmptyString [])
     = Json.Malformed
  /\ apply_styles linux (Some "Modo") (Some "12pt")
       (State (write_file (settings_file_path linux) "{" modo_only)
              "QWidget { }" [])
     = (Raised,
        State (write_file (settings_file_path linux) "{" modo_only)
              "QWidget { }" []).
Proof.
  split; [|split; [|split]].
  - exact (proj1 (load_settings_cases linux
                    (State no_files EmptyString [])) eq_refl).
  - refine (proj1 (proj2 (load_settings_cases linux
                            (State (write_file (settings_file_path linux)
                                      (Json.dumps [("selected_theme", "Modo")])
                                      no_files)
                                   EmptyString [])))
                  [("selected_theme", "Modo")] _ eq_refl).
    repeat constructor. simpl. intuition.
  - exact (proj1 (proj2 (proj2 (load_settings_cases linux
                                  (State (write_file
                                            (settings_file_path linux)
                                            "  " no_files)
                                         EmptyString [])))
                        "  " eq_refl (or_introl eq_refl))).
  - exact (proj2 (proj2 (proj2 (load_settings_cases linux
                                  (State (write_file
                                            (settings_file_path linux)
                                            "{" modo_only)
                                         "QWidget { }" [])))
                        "{" eq_refl (or_intror eq_refl))
                 (Some "Modo") (Some "12pt")).
Defined.

(** ** [apply_styles] *)

Lemma load_settings_nodup h st settings :
  load_settings h st = Json.Parsed settings -> NoDup (Json.keys settings).
Proof.
  unfold load_settings.
  destruct (files st (settings_file_path h)) as [text|].
  - apply loads_nodup.
  - intros H. inversion H. constructor.
Qed.



(** C10: when the file of the resolved theme is not there, the call
    writes no file: the settings file, and what [load_settings] reads
    from it, are what they were before the call. *)
Theorem missing_stylesheet_keeps_settings :
  forall (h : host) (selected_theme font_size : option string)
         (st : state) (settings : Json.dict),
    load_settings h st = Json.Parsed settings ->
    files st
      (qss_file h
         (resolve selected_theme "selected_theme" "Maya Default" settings))
    = None ->
    files (snd (apply_styles h selected_theme font_size st)) = files st
    /\ load_settings h (snd (apply_styles h selected_theme font_size st))
       = Json.Parsed settings.
Proof.
  intros h selected_theme font_size st settings Hl Hf.
  unfold apply_styles. rewrite Hl. cbv zeta. rewrite Hf. cbn [snd].
  split; [reflexivity|]. exact Hl.
Qed.

Lemma missing_stylesheet_keeps_settings_witness :
  files (snd (apply_styles linux (Some "Umbra") (Some "12pt")
                (State modo_saved "old" [])))
  = modo_saved
  /\ load_settings linux
       (snd (apply_styles linux (Some "Umbra") (Some "12pt")
               (State modo_saved "old" [])))
     = Json.Parsed [("selected_theme", "Modo"); ("font_size", "Auto")].
Proof.
  exact (missing_stylesheet_keeps_settings linux (Some "Umbra") (Some "12pt")
           (State modo_saved "old" [])
           [("selected_theme", "Modo"); ("font_size", "Auto")]
           eq_refl eq_refl).
Defined.

(** C9: a call of [apply_styles] that goes to its end writes the
    settings file anew, as the whole document: the settings that were
    read, with [selected_theme] set to the resolved theme and
    [font_size] to the resolved policy.  An argument that is given is
    the resolved value; one that is [None] is resolved from the settings
    that were read, and is [Maya Default], or [Auto], when they do not
    have it. *)
Theorem applied_settings_saved :
  forall (h : host) (selected_theme font_size : option string)
         (st st' : state),
    apply_styles h selected_theme font_size st = (Applied, st') ->
    exists settings theme size,
      load_settings h st = Json.Parsed settings
      /\ theme = match selected_theme with
                 | Some t => t
                 | None =>
                     match Json.get "selected_theme" settings with
                     | Some t => t
                     | None => "Maya Default"
                     end
                 end
      /\ size = match font_size with
                | Some f => f
                | None =>
                    match Json.get "font_size" settings with
                    | Some f => f
                    | None => "Auto"
                    end
                end
      /\ files st'
         = write_file (settings_file_path h)
             (Json.dumps
                (Json.set "font_size" size
                   (Json.set "selected_theme" theme settings)))
             (files st)
      /\ load_settings h st'
         = Json.Parsed
             (Json.set "font_size" size
                (Json.set "selected_theme" theme settings))
      /\ Json.get "selected_theme"
           (Json.set "font_size" size
              (Json.set "selected_theme" theme settings)) = Some theme
      /\ Json.get "font_size"
           (Json.set "font_size" size
              (Json.set "selected_theme" theme settings)) = Some size.
Proof.
  intros h selected_theme font_size st st' H.
  unfold apply_styles in H.
  destruct (load_settings h st) as [settings| |] eqn:Hl; try discriminate.
  cbv zeta in H.
  set (theme := resolve selected_theme "selected_theme" "Maya Default"
                  settings) in *.
  set (size := resolve font_size "font_size" "Auto" settings) in *.
  destruct (files st (qss_file h theme)) as [sheet|]; [|discriminate].
  destruct (modify_font_size size sheet) as [sheet'|]; [|discriminate].
  inversion H; subst st'; clear H.
  exists settings, theme, size. repeat split.
  - apply load_saved. do 2 apply set_nodup.
    exact (load_settings_nodup h st settings Hl).
  - rewrite get_set_other by discriminate. apply get_set_same.
  - apply get_set_same.
Qed.

Lemma applied_settings_saved_witness :
  exists settings theme size,
    load_settings linux (State modo_only "old" []) = Json.Parsed settings
    /\ theme = "Modo" /\ size = "Auto"
    /\ files (snd (apply_styles linux (Some "Modo") None
                     (State modo_only "old" [])))
       = write_file (settings_file_path linux)
           (Json.dumps
              (Json.set "font_size" size
                 (Json.set "selected_theme" theme settings)))
           modo_only
    /\ load_settings linux
         (snd (apply_styles linux (Some "Modo") None
                 (State modo_only "old" [])))
       = Json.Parsed [("selected_theme", "Modo"); ("font_size", "Auto")].
Proof.
  destruct (applied_settings_saved linux (Some "Modo") None
              (State modo_only "old" [])
              (snd (apply_styles linux (Some "Modo") None
                      (State modo_only "old" [])))
              eq_refl)
    as (settings & theme & size & Hl & Ht & Hs & Hf & Hr & _).
  exists settings, theme, size.
  assert (Hset : settings = []) by (now inversion Hl).
  subst settings. simpl in Ht, Hs. subst theme size.
  repeat split; assumption.
Defined.

(** C6: the stylesheet file of a theme is named by the theme in lower
    case, without its spaces, and the suffix [_stylesheet.qss]; it is
    looked for in the folder [MayaUIChanger/] of the user's scripts. *)
Theorem theme_file_name :
  forall (h : host) (theme : string),
    qss_name theme = theme_file_spec theme
    /\ qss_file h theme
       = path_join h (path_join h (userScriptDir h) "MayaUIChanger/")
           (theme_file_spec theme)
    /\ qss_name "Blender Dark" = "blenderdark_stylesheet.qss".
Proof.
  intros h theme.
  assert (E : qss_name theme = theme_file_spec theme).
  { unfold qss_name, theme_file_spec. f_equal.
    induction theme as [|c theme IH]; [reflexivity|].
    simpl. destruct (Ascii.eqb (lower_char c) " "); simpl; now rewrite IH. }
  split; [exact E|]. split; [|reflexivity].
  unfold qss_file. now rewrite E.
Qed.

(** ** The installer *)

Lemma setup_code_marked :
  contains "MayaUIChanger" Install.robust_setup_code = true.
Proof. vm_compute. reflexivity. Qed.

Lemma patch_twice usersetup :
  Install.patch_usersetup (Install.patch_usersetup usersetup)
  = Install.patch_usersetup usersetup.
Proof.
  unfold Install.patch_usersetup.
  destruct usersetup as [content|].
  - destruct (contains "MayaUIChanger" content) eqn:E.
    + now rewrite E.
    + rewrite (contains_app_l _ content _
                 (contains_app_l _ Install.nl _ setup_code_marked)).
      reflexivity.
  - now rewrite setup_code_marked.
Qed.

(** C8: the patch of [userSetup.py] leaves a text with the marker as it
    is and appends the setup code, which has the marker, to a text
    without it; so a second patch changes nothing.  A run of [install]
    patches the file when the old installation, if there is one, was
    removed and the copy went through, and leaves the file as it is
    when the removal or the copy failed; without a file the patch is the
    setup code alone.  After two runs the file is as it was when both
    runs failed, and as one patch leaves it otherwise: the setup code is
    never appended twice. *)
Theorem usersetup_patched_once :
  forall (usersetup : option string) (env1 env2 : Install.copy_env)
         (content : string),
    contains "MayaUIChanger" Install.robust_setup_code = true
    /\ Install.patch_usersetup (Some content)
       = Some (if contains "MayaUIChanger" content then content
               else content ++ Install.nl ++ Install.robust_setup_code)
    /\ Install.patch_usersetup (Install.patch_usersetup usersetup)
       = Install.patch_usersetup usersetup
    /\ (Install.install env2 (Install.install env1 usersetup) = usersetup
        \/ Install.install env2 (Install.install env1 usersetup)
           = Install.patch_usersetup usersetup)
    /\ Install.install env1 usersetup
       = (if (Install.target_exists env1 && Install.rmtree_raises env1)
             || Install.copytree_raises env1
          then usersetup
          else Install.patch_usersetup usersetup)
    /\ Install.patch_usersetup None = Some Install.robust_setup_code
    /\ Install.install env2 (Install.install env1 usersetup)
       = (if ((Install.target_exists env1 && Install.rmtree_raises env1)
              || Install.copytree_raises env1)
             && ((Install.target_exists env2 && Install.rmtree_raises env2)
                 || Install.copytree_raises env2)
          then usersetup
          else Install.patch_usersetup usersetup).
Proof.
  intros usersetup env1 env2 content.
  split; [exact setup_code_marked|]. split.
  { unfold Install.patch_usersetup.
    now destruct (contains "MayaUIChanger" content). }
  split; [apply patch_twice|].
  unfold Install.install.
  destruct (Install.target_exists env1 && Install.rmtree_raises env1),
    (Install.copytree_raises env1),
    (Install.target_exists env2 && Install.rmtree_raises env2),
    (Install.copytree_raises env2);
    cbn [orb andb]; repeat split; auto using patch_twice.
Qed.

(** * More of the loader and the installer *)

(** ** The font-size policy as a whole *)

Lemma sub_loop_shrinks r f :
  (forall m o, f m = Some o -> String.length o <= String.length m) ->
  forall fuel s out,
    Re.sub_loop fuel r f s = Some out ->
    String.length out <= String.length s.
Proof.
  intros Hf. induction fuel as [|n IH]; intros s out H; cbn [Re.sub_loop] in H.
  - inversion H; subst. lia.
  - destruct (Re.match_here r s) as [[[|c m] rest]|] eqn:E.
    + destruct (f EmptyString) as [o|] eqn:Ef; [|discriminate].
      apply Hf in Ef. simpl in Ef.
      destruct s as [|c s].
      * inversion H; subst. lia.
      * destruct (Re.sub_loop n r f s) as [tl|] eqn:Et; [|discriminate].
        inversion H; subst. apply IH in Et.
        rewrite length_append. simpl. lia.
    + destruct (f (String c m)) as [o|] eqn:Ef; [|discriminate].
      destruct (Re.sub_loop n r f rest) as [tl|] eqn:Et; [|discriminate].
      inversion H; subst. apply Hf in Ef. apply IH in Et.
      apply match_here_split in E. subst s.
      rewrite !length_append. lia.
    + destruct s as [|c s].
      * inversion H; subst. lia.
      * destruct (Re.sub_loop n r f s) as [tl|] eqn:Et; [|discriminate].
        inversion H; subst. apply IH in Et. simpl. lia.
Qed.

(** A scan whose replacement function gives back every match it is
    given in the text leaves the text as it is. *)
Lemma sub_loop_same r f : forall fuel s,
  (forall a m rest,
      s = a ++ m ++ rest ->
      Re.match_here r (m ++ rest) = Some (m, rest) -> f m = Some m) ->
  Re.sub_loop fuel r f s = Some s.
Proof.
  induction fuel as [|n IH]; intros s Hf; cbn [Re.sub_loop]; [reflexivity|].
  assert (Htl : forall c s', s = String c s' ->
                             Re.sub_loop n r f s' = Some s').
  { intros c s' ->. apply IH. intros a m rest E.
    apply (Hf (String c a)). simpl. now rewrite E. }
  destruct (Re.match_here r s) as [[[|c m] rest]|] eqn:E.
  - pose proof (match_here_split _ _ _ _ E) as Hs. simpl in Hs. subst rest.
    rewrite (Hf EmptyString EmptyString s eq_refl E).
    destruct s as [|c s]; [reflexivity|].
    now rewrite (Htl c s eq_refl).
  - pose proof (match_here_split _ _ _ _ E) as Hs. subst s.
    rewrite (Hf EmptyString (String c m) rest eq_refl E).
    rewrite IH; [reflexivity|].
    intros a m' rest' E'. apply (Hf (String c m ++ a)).
    now rewrite E', !append_assoc.
  - destruct s as [|c s]; [reflexivity|].
    now rewrite (Htl c s eq_refl).
Qed.

Lemma match_lits_extend l x q r b :
  Re.match_here (Re.lits l) x = Some (q, r) ->
  Re.match_here (Re.lits l) (x ++ b) = Some (q, r ++ b).
Proof.
  intros H. apply match_lits_same in H as [-> Hq].
  rewrite append_assoc. now apply same_nocase_match.
Qed.

Lemma occurs_after l x : forall a,
  Re.occurs l x = true -> Re.occurs l (a ++ x) = true.
Proof.
  intros a H. induction a as [|c a IH]; [exact H|].
  change (String c a ++ x) with (String c (a ++ x)).
  cbn [Re.occurs].
  now destruct (Re.match_here (Re.lits l) (String c (a ++ x))).
Qed.

Lemma occurs_before l b : forall x,
  Re.occurs l x = true -> Re.occurs l (x ++ b) = true.
Proof.
  induction x as [|c x IH]; intros H.
  - cbn [Re.occurs] in H.
    destruct (Re.match_here (Re.lits l) EmptyString) as [[q r]|] eqn:E;
      [|discriminate].
    apply (match_lits_extend _ _ _ _ b) in E.
    change (EmptyString ++ b) with b in *.
    destruct b; cbn [Re.occurs]; now rewrite E.
  - change (String c x ++ b) with (String c (x ++ b)).
    cbn [Re.occurs] in H |- *.
    destruct (Re.match_here (Re.lits l) (String c x)) as [[q r]|] eqn:E.
    + apply (match_lits_extend _ _ _ _ b) in E.
      change (String c x ++ b) with (String c (x ++ b)) in E.
      now rewrite E.
    + destruct (Re.match_here (Re.lits l) (String c (x ++ b))); auto.
Qed.

Lemma occurs_at l r x m rest :
  Re.match_here (Re.lits l ++ r)%list x = Some (m, rest) ->
  Re.occurs l x = true.
Proof.
  rewrite match_lits. intros H.
  destruct (Re.match_here (Re.lits l) x) as [[q s2]|] eqn:E; [|discriminate].
  destruct x; cbn [Re.occurs]; now rewrite E.
Qed.

Lemma remove_no_font_size m :
  Re.occurs "font-size:" m = false -> remove_font_size m = Some m.
Proof.
  intros H. unfold remove_font_size, Re.sub_str.
  change (has_char backslash EmptyString) with false. cbv iota.
  apply sub_loop_same. intros a x rest E Hm. exfalso.
  apply occurs_at in Hm. apply (occurs_after _ _ a) in Hm.
  rewrite <- E in Hm. congruence.
Qed.

Lemma modify_not_none font_size style_sheet :
  has_char backslash font_size = false ->
  modify_font_size font_size style_sheet <> None.
Proof.
  intros Hbs.
  assert (Hin : forall repl m, has_char backslash repl = false ->
                               Re.sub_str font_size_re repl m <> None).
  { intros repl m Hr. unfold Re.sub_str. rewrite Hr.
    apply sub_total. discriminate. }
  unfold modify_font_size.
  destruct (String.eqb font_size "Auto"); apply sub_total; intros m.
  - apply Hin. reflexivity.
  - unfold replace_font_size.
    destruct (contains "font-size:" m); [|discriminate].
    apply Hin. now rewrite !has_char_app, Hbs.
Qed.

(** X2: under [Auto], a stylesheet in which [font-size:] does not stand,
    in any case of letters, is given back as it is. *)
Theorem auto_without_font_size :
  forall style_sheet : string,
    Re.occurs "font-size:" style_sheet = false ->
    modify_font_size "Auto" style_sheet = Some style_sheet.
Proof.
  intros s H. rewrite modify_auto. apply sub_loop_same.
  intros a m rest E _. apply remove_no_font_size.
  destruct (Re.occurs "font-size:" m) eqn:Em; [|reflexivity].
  apply (occurs_before _ rest) in Em. apply (occurs_after _ _ a) in Em.
  rewrite <- E in Em. congruence.
Qed.

Lemma auto_without_font_size_witness :
  modify_font_size "Auto"
    "QWidget { color: red; font: bold; } QWidget{font-size 3;}"
  = Some "QWidget { color: red; font: bold; } QWidget{font-size 3;}".
Proof.
  exact (auto_without_font_size
           "QWidget { color: red; font: bold; } QWidget{font-size 3;}"
           eq_refl).
Defined.

Lemma is_subsequence_nil s : is_subsequence EmptyString s = true.
Proof. now destruct s. Qed.

Lemma is_subsequence_cons x o c s :
  is_subsequence (String x o) (String c s)
  = if Ascii.eqb x c then is_subsequence o s
    else is_subsequence (String x o) s.
Proof. reflexivity. Qed.

(** One more character in the text, one less in what is left of it. *)
Lemma is_subsequence_step : forall s,
  (forall o c,
      is_subsequence o s = true -> is_subsequence o (String c s) = true)
  /\ (forall x o,
        is_subsequence (String x o) s = true -> is_subsequence o s = true).
Proof.
  induction s as [|d s [IHs IHt]].
  - split.
    + intros [|x o] c H; [reflexivity | discriminate H].
    + intros x o H. discriminate H.
  - assert (Ht : forall x o,
               is_subsequence (String x o) (String d s) = true ->
               is_subsequence o (String d s) = true).
    { intros x o H. rewrite is_subsequence_cons in H.
      destruct (Ascii.eqb x d); apply IHs; [exact H | now apply (IHt x)]. }
    split; [|exact Ht].
    intros [|x o] c H; [reflexivity|].
    rewrite is_subsequence_cons.
    destruct (Ascii.eqb x c); [now apply (Ht x) | exact H].
Qed.

Lemma is_subsequence_refl : forall s, is_subsequence s s = true.
Proof.
  induction s as [|c s IH]; [reflexivity|].
  now rewrite is_subsequence_cons, Ascii.eqb_refl.
Qed.

Lemma is_subsequence_prepend o s : forall p,
  is_subsequence o s = true -> is_subsequence o (p ++ s) = true.
Proof.
  induction p as [|c p IH]; intros H; [exact H|].
  change (String c p ++ s) with (String c (p ++ s)).
  apply is_subsequence_step. now apply IH.
Qed.

Lemma is_subsequence_app : forall a' a b b',
  is_subsequence a a' = true -> is_subsequence b b' = true ->
  is_subsequence (a ++ b) (a' ++ b') = true.
Proof.
  induction a' as [|d a' IH]; intros a b b' Ha Hb.
  - destruct a; [exact Hb | discriminate Ha].
  - destruct a as [|x a].
    + now apply is_subsequence_prepend.
    + change (String x a ++ b) with (String x (a ++ b)).
      change (String d a' ++ b') with (String d (a' ++ b')).
      rewrite is_subsequence_cons in *.
      destruct (Ascii.eqb x d).
      * now apply IH.
      * now apply (IH (String x a)).
Qed.

(** A scan whose replacement function only takes characters away from
    the matches only takes characters away from the text. *)
Lemma sub_loop_deletes r f :
  (forall m o, f m = Some o -> is_subsequence o m = true) ->
  forall fuel s out,
    Re.sub_loop fuel r f s = Some out ->
    is_subsequence out s = true.
Proof.
  intros Hf. induction fuel as [|n IH]; intros s out H; cbn [Re.sub_loop] in H.
  - inversion H; subst. apply is_subsequence_refl.
  - destruct (Re.match_here r s) as [[[|c m] rest]|] eqn:E.
    + destruct (f EmptyString) as [o|] eqn:Ef; [|discriminate].
      apply Hf in Ef. destruct o as [|x o]; [|discriminate Ef].
      destruct s as [|c s].
      * inversion H; subst. reflexivity.
      * destruct (Re.sub_loop n r f s) as [tl|] eqn:Et; [|discriminate].
        inversion H; subst. apply IH in Et.
        change (EmptyString ++ String c tl) with (String c tl).
        now rewrite is_subsequence_cons, Ascii.eqb_refl.
    + destruct (f (String c m)) as [o|] eqn:Ef; [|discriminate].
      destruct (Re.sub_loop n r f rest) as [tl|] eqn:Et; [|discriminate].
      inversion H; subst. apply Hf in Ef. apply IH in Et.
      apply match_here_split in E. subst s.
      now apply is_subsequence_app.
    + destruct s as [|c s].
      * inversion H; subst. reflexivity.
      * destruct (Re.sub_loop n r f s) as [tl|] eqn:Et; [|discriminate].
        inversion H; subst. apply IH in Et.
        now rewrite is_subsequence_cons, Ascii.eqb_refl.
Qed.

(** X3: under [Auto] the rewrite only takes text away: the result is
    the stylesheet with some of its characters deleted, the others in
    their order, and so it is never longer than the stylesheet. *)
Theorem auto_only_deletes :
  forall style_sheet out : string,
    modify_font_size "Auto" style_sheet = Some out ->
    is_subsequence out style_sheet = true
    /\ String.length out <= String.length style_sheet.
Proof.
  intros s out H. rewrite modify_auto in H. unfold Re.sub in H. split.
  - revert H. apply sub_loop_deletes. intros m o Hm.
    unfold remove_font_size, Re.sub_str in Hm.
    change (has_char backslash EmptyString) with false in Hm.
    cbv iota in Hm.
    revert Hm. apply sub_loop_deletes. intros m' o' E.
    inversion E. apply is_subsequence_nil.
  - revert H. apply sub_loop_shrinks. intros m o Hm.
    unfold remove_font_size, Re.sub_str in Hm.
    change (has_char backslash EmptyString) with false in Hm.
    cbv iota in Hm.
    revert Hm. apply sub_loop_shrinks. intros m' o' E.
    inversion E. simpl. lia.
Qed.

Lemma auto_only_deletes_witness :
  modify_font_size "Auto"
    "QWidget { color: red; font-size: 10pt; } QLabel { font-size: 9pt; }"
  = Some "QWidget { color: red;  } QLabel { font-size: 9pt; }"
  /\ is_subsequence
       "QWidget { color: red;  } QLabel { font-size: 9pt; }"
       "QWidget { color: red; font-size: 10pt; } QLabel { font-size: 9pt; }"
     = true.
Proof.
  split; [reflexivity|].
  exact (proj1 (auto_only_deletes
                  "QWidget { color: red; font-size: 10pt; } QLabel { font-size: 9pt; }"
                  "QWidget { color: red;  } QLabel { font-size: 9pt; }"
                  eq_refl)).
Defined.

(** X4: a stylesheet in which [QWidget] does not stand, in any case of
    letters, or that has no opening brace, or no closing brace, is given
    back as it is under every policy. *)
Theorem no_block_unchanged :
  forall font_size style_sheet : string,
    Re.occurs "QWidget" style_sheet = false
    \/ has_char "{" style_sheet = false
    \/ has_char "}" style_sheet = false ->
    modify_font_size font_size style_sheet = Some style_sheet.
Proof.
  intros font_size s H.
  assert (Hno : forall a m rest,
             s = a ++ m ++ rest ->
             Re.match_here qwidget_re (m ++ rest) = Some (m, rest) -> False).
  { intros a m rest E Hm. destruct H as [H | [H | H]].
    - apply occurs_at in Hm. apply (occurs_after _ _ a) in Hm.
      rewrite <- E in Hm. congruence.
    - apply qwidget_match_shape in Hm as (hd & u & -> & _).
      rewrite E, !has_char_app in H.
      change (has_char "{" "{") with true in H.
      rewrite !orb_true_r in H. discriminate.
    - apply qwidget_match_shape in Hm as (hd & u & -> & _).
      rewrite E, !has_char_app in H.
      change (has_char "}" "}") with true in H.
      rewrite !orb_true_r in H. discriminate. }
  unfold modify_font_size.
  destruct (String.eqb font_size "Auto"); apply sub_loop_same;
    intros a m rest E Hm; destruct (Hno a m rest E Hm).
Qed.

Lemma no_block_unchanged_witness :
  modify_font_size "12pt" "QLabel { font-size: 9pt; } QMenu { color: red }"
  = Some "QLabel { font-size: 9pt; } QMenu { color: red }"
  /\ modify_font_size "Auto" "QWidget font-size: 9pt; }"
     = Some "QWidget font-size: 9pt; }".
Proof.
  split.
  - exact (no_block_unchanged "12pt"
             "QLabel { font-size: 9pt; } QMenu { color: red }"
             (or_introl eq_refl)).
  - exact (no_block_unchanged "Auto" "QWidget font-size: 9pt; }"
             (or_intror (or_introl eq_refl))).
Defined.

(** ** What [save_settings] writes *)

Lemma escape_char_printable c :
  all_chars printable (Json.escape_char c) = true.
Proof. destruct c as [[] [] [] [] [] [] [] []]; reflexivity. Qed.

Lemma escape_printable : forall s,
  all_chars printable (Json.escape s) = true.
Proof.
  induction s as [|c s IH]; [reflexivity|].
  cbn [Json.escape]. now rewrite all_chars_app, escape_char_printable, IH.
Qed.

Lemma encode_string_printable s :
  all_chars printable (Json.encode_string s) = true.
Proof.
  unfold Json.encode_string. cbn [all_chars].
  now rewrite all_chars_app, escape_printable.
Qed.

Lemma dump_members_printable : forall d,
  all_chars printable (Json.dump_members d) = true.
Proof.
  induction d as [|[k v] d IH]; [reflexivity|].
  cbn [Json.dump_members].
  rewrite !all_chars_app, !encode_string_printable.
  destruct d as [|kv d]; [reflexivity|].
  rewrite all_chars_app, IH. reflexivity.
Qed.

(** X5: the settings file that [save_settings] writes is made of the
    characters from the space to the tilde only, whatever the keys and
    the values of the settings are. *)
Theorem settings_file_printable :
  forall (h : host) (settings : Json.dict) (st : state),
    exists text,
      files (save_settings h settings st) (settings_file_path h) = Some text
      /\ all_chars printable text = true.
Proof.
  intros h settings st. exists (Json.dumps settings). split.
  - unfold save_settings. cbn [files]. apply read_written.
  - unfold Json.dumps.
    now rewrite !all_chars_app, dump_members_printable.
Qed.

(** ** More of [apply_styles] *)

(** What a call that goes to its end went through. *)
Lemma apply_styles_applied h selected_theme font_size st st' :
  apply_styles h selected_theme font_size st = (Applied, st') ->
  exists settings sheet sheet',
    load_settings h st = Json.Parsed settings
    /\ files st
         (qss_file h
            (resolve selected_theme "selected_theme" "Maya Default" settings))
       = Some sheet
    /\ modify_font_size (resolve font_size "font_size" "Auto" settings) sheet
       = Some sheet'
    /\ st' = save_settings h
               (Json.set "font_size"
                  (resolve font_size "font_size" "Auto" settings)
                  (Json.set "selected_theme"
                     (resolve selected_theme "selected_theme" "Maya Default"
                        settings)
                     settings))
               (State (files st) sheet' (warnings st)).
Proof.
  unfold apply_styles. intros H.
  destruct (load_settings h st) as [settings| |] eqn:Hl; try discriminate.
  cbv zeta in H.
  destruct (files st (qss_file h _)) as [sheet|] eqn:Hf; [|discriminate].
  destruct (modify_font_size _ sheet) as [sheet'|] eqn:Hm; [|discriminate].
  inversion H; subst st'. exists settings, sheet, sheet'. auto.
Qed.

(** The settings that a call that goes to its end leaves in the file. *)
Lemma apply_styles_saved h selected_theme font_size st st' :
  apply_styles h selected_theme font_size st = (Applied, st') ->
  exists settings,
    load_settings h st = Json.Parsed settings
    /\ load_settings h st'
       = Json.Parsed
           (Json.set "font_size"
              (resolve font_size "font_size" "Auto" settings)
              (Json.set "selected_theme"
                 (resolve selected_theme "selected_theme" "Maya Default"
                    settings)
                 settings)).
Proof.
  intros H.
  apply apply_styles_applied in H
    as (settings & sheet & sheet' & Hl & _ & _ & ->).
  exists settings. split; [exact Hl|].
  apply load_saved. do 2 apply set_nodup.
  exact (load_settings_nodup h st settings Hl).
Qed.

(** X6: a call of [apply_styles] that ends by applying the stylesheet,
    by the warning for a missing stylesheet, or by the decoding error of
    the settings writes no file but the settings file and takes no
    warning back; when it ends by the warning or by the error, all
    files and the stylesheet of the application are as they were. *)
Theorem apply_styles_writes_settings_only :
  forall (h : host) (selected_theme font_size : option string) (st : state),
    fst (apply_styles h selected_theme font_size st) <> Unmodelled ->
    (forall p,
        p <> settings_file_path h ->
        files (snd (apply_styles h selected_theme font_size st)) p
        = files st p)
    /\ (exists more,
          warnings (snd (apply_styles h selected_theme font_size st))
          = (warnings st ++ more)%list)
    /\ (fst (apply_styles h selected_theme font_size st) = NotFound
        \/ fst (apply_styles h selected_theme font_size st) = Raised ->
        files (snd (apply_styles h selected_theme font_size st)) = files st
        /\ app_style (snd (apply_styles h selected_theme font_size st))
           = app_style st).
Proof.
  intros h selected_theme font_size st. unfold apply_styles.
  destruct (load_settings h st) as [settings| |];
    try (cbn [fst snd]; intros _; repeat split; trivial;
         exists []; now rewrite app_nil_r).
  cbv zeta.
  destruct (files st (qss_file h _)) as [sheet|].
  - destruct (modify_font_size _ sheet) as [sheet'|]; cbn [fst snd].
    + intros _. repeat split.
      * intros p Hp. unfold save_settings, write_file. cbn [files].
        apply String.eqb_neq in Hp. now rewrite Hp.
      * exists []. unfold save_settings. cbn [warnings].
        now rewrite app_nil_r.
      * destruct H; discriminate.
      * destruct H; discriminate.
    + intros H. now contradiction H.
  - cbn [fst snd files warnings app_style]. intros _. repeat split; trivial.
    eexists. reflexivity.
Qed.

Lemma apply_styles_writes_settings_only_witness :
  files (snd (apply_styles linux (Some "Umbra") None
                (State studio "QWidget { }" [])))
        (qss_file linux "Umbra")
  = Some "QWidget { font-size: 9pt; }"
  /\ app_style (snd (apply_styles linux (Some "Zbrush") None
                       (State studio "QWidget { }" [])))
     = "QWidget { }".
Proof.
  split.
  - exact (proj1 (apply_styles_writes_settings_only linux (Some "Umbra") None
                    (State studio "QWidget { }" [])
                    ltac:(vm_compute; discriminate))
                 (qss_file linux "Umbra")
                 ltac:(vm_compute; discriminate)).
  - exact (proj2 (proj2 (proj2 (apply_styles_writes_settings_only linux
                                  (Some "Zbrush") None
                                  (State studio "QWidget { }" [])
                                  ltac:(vm_compute; discriminate)))
                        (or_introl eq_refl))).
Defined.

(** X7: a theme item of the menu changes the theme and keeps the font
    size: after it, the settings file holds the new theme, and the size
    that was stored before, or [Auto] when none was. *)
Theorem theme_changer_keeps_font_size :
  forall (h : host) (theme : string) (st st' : state),
    theme_changer h theme st = (Applied, st') ->
    exists settings saved,
      load_settings h st = Json.Parsed settings
      /\ load_settings h st' = Json.Parsed saved
      /\ Json.get "selected_theme" saved = Some theme
      /\ Json.get "font_size" saved
         = Some (Json.get_default "font_size" "Auto" settings).
Proof.
  intros h theme st st' H. unfold theme_changer in H.
  apply apply_styles_saved in H as (settings & Hl & Hs).
  exists settings. eexists. split; [exact Hl|]. split; [exact Hs|].
  cbn [resolve]. split.
  - rewrite get_set_other by discriminate. apply get_set_same.
  - apply get_set_same.
Qed.

(** X8: a font-size item of the menu changes the size and keeps the
    theme: after it, the settings file holds the new size, and the theme
    that was stored before, or [Maya Default] when none was. *)
Theorem font_changer_keeps_theme :
  forall (h : host) (size : string) (st st' : state),
    font_changer h size st = (Applied, st') ->
    exists settings saved,
      load_settings h st = Json.Parsed settings
      /\ load_settings h st' = Json.Parsed saved
      /\ Json.get "font_size" saved = Some size
      /\ Json.get "selected_theme" saved
         = Some (Json.get_default "selected_theme" "Maya Default" settings).
Proof.
  intros h size st st' H. unfold font_changer in H.
  apply apply_styles_saved in H as (settings & Hl & Hs).
  exists settings. eexists. split; [exact Hl|]. split; [exact Hs|].
  cbn [resolve]. split.
  - apply get_set_same.
  - rewrite get_set_other by discriminate. apply get_set_same.
Qed.

(** X9: a call that goes to its end keeps every other entry of the
    settings file: a key that is neither [selected_theme] nor
    [font_size] has after the call the value it had before. *)
Theorem other_settings_kept :
  forall (h : host) (selected_theme font_size : option string)
         (st st' : state),
    apply_styles h selected_theme font_size st = (Applied, st') ->
    exists settings saved,
      load_settings h st = Json.Parsed settings
      /\ load_settings h st' = Json.Parsed saved
      /\ forall k,
           k <> "selected_theme" -> k <> "font_size" ->
           Json.get k saved = Json.get k settings.
Proof.
  intros h selected_theme font_size st st' H.
  apply apply_styles_saved in H as (settings & Hl & Hs).
  exists settings. eexists. split; [exact Hl|]. split; [exact Hs|].
  intros k H1 H2. now rewrite !get_set_other.
Qed.

Lemma theme_changer_keeps_font_size_witness :
  exists settings saved,
    load_settings linux (State studio EmptyString []) = Json.Parsed settings
    /\ load_settings linux
         (snd (theme_changer linux "Umbra" (State studio EmptyString [])))
       = Json.Parsed saved
    /\ Json.get "selected_theme" saved = Some "Umbra"
    /\ Json.get "font_size" saved
       = Some (Json.get_default "font_size" "Auto" settings).
Proof.
  exact (theme_changer_keeps_font_size linux "Umbra"
           (State studio EmptyString [])
           (snd (theme_changer linux "Umbra" (State studio EmptyString [])))
           eq_refl).
Defined.

Lemma font_changer_keeps_theme_witness :
  exists settings saved,
    load_settings linux (State studio EmptyString []) = Json.Parsed settings
    /\ load_settings linux
         (snd (font_changer linux "16pt" (State studio EmptyString [])))
       = Json.Parsed saved
    /\ Json.get "font_size" saved = Some "16pt"
    /\ Json.get "selected_theme" saved
       = Some (Json.get_default "selected_theme" "Maya Default" settings).
Proof.
  exact (font_changer_keeps_theme linux "16pt"
           (State studio EmptyString [])
           (snd (font_changer linux "16pt" (State studio EmptyString [])))
           eq_refl).
Defined.

Lemma other_settings_kept_witness :
  exists settings saved,
    load_settings linux (State studio EmptyString []) = Json.Parsed settings
    /\ load_settings linux
         (snd (apply_styles linux (Some "Umbra") (Some "Auto")
                 (State studio EmptyString [])))
       = Json.Parsed saved
    /\ forall k,
         k <> "selected_theme" -> k <> "font_size" ->
         Json.get k saved = Json.get k settings.
Proof.
  exact (other_settings_kept linux (Some "Umbra") (Some "Auto")
           (State studio EmptyString [])
           (snd (apply_styles linux (Some "Umbra") (Some "Auto")
                   (State studio EmptyString [])))
           eq_refl).
Defined.

Lemma set_known k v : forall d,
  Json.get k d = Some v -> Json.set k v d = d.
Proof.
  induction d as [|[k' v'] d IH]; simpl; [discriminate|].
  destruct (String.eqb k' k).
  - intros H. now inversion H.
  - intros H. now rewrite IH.
Qed.

Lemma write_twice path text fs p :
  write_file path text (write_file path text fs) p
  = write_file path text fs p.
Proof. unfold write_file. now destruct (String.eqb p path). Qed.

(** X10: the choice that a call saved is the choice that a later call
    without arguments applies, as [run] does when Maya starts: it ends
    with the same stylesheet on the application and the same files,
    provided the settings file is not itself the stylesheet file of the
    saved theme. *)
Theorem saved_choice_applied_again :
  forall (h : host) (selected_theme font_size : option string)
         (st st' : state) (saved : Json.dict),
    apply_styles h selected_theme font_size st = (Applied, st') ->
    load_settings h st' = Json.Parsed saved ->
    settings_file_path h
    <> qss_file h (Json.get_default "selected_theme" "Maya Default" saved) ->
    exists st'',
      apply_styles h None None st' = (Applied, st'')
      /\ app_style st'' = app_style st'
      /\ warnings st'' = warnings st'
      /\ forall p, files st'' p = files st' p.
Proof.
  intros h selected_theme font_size st st' saved H Hs' Hne.
  pose proof (apply_styles_saved _ _ _ _ _ H) as (settings0 & Hl0 & Hs0).
  apply apply_styles_applied in H
    as (settings & sheet & sheet' & Hl & Hf & Hm & ->).
  rewrite Hl in Hl0. inversion Hl0; subst settings0; clear Hl0.
  rewrite Hs0 in Hs'. inversion Hs' as [Hsaved]; clear Hs'.
  set (theme := resolve selected_theme "selected_theme" "Maya Default"
                  settings) in *.
  set (size := resolve font_size "font_size" "Auto" settings) in *.
  assert (Gt : Json.get "selected_theme" saved = Some theme).
  { subst saved. rewrite get_set_other by discriminate. apply get_set_same. }
  assert (Gs : Json.get "font_size" saved = Some size).
  { subst saved. apply get_set_same. }
  rewrite Hsaved in *. clear Hsaved.
  unfold Json.get_default in Hne. rewrite Gt in Hne.
  unfold apply_styles. rewrite Hs0. cbv zeta. cbn [resolve].
  unfold Json.get_default. rewrite Gt, Gs.
  assert (Hq : files (save_settings h saved
                        (State (files st) sheet' (warnings st)))
                 (qss_file h theme) = Some sheet).
  { unfold save_settings, write_file. cbn [files].
    apply not_eq_sym in Hne. apply String.eqb_neq in Hne.
    now rewrite Hne. }
  rewrite Hq, Hm. eexists. split; [reflexivity|].
  rewrite (set_known _ _ _ Gt), (set_known _ _ _ Gs).
  unfold save_settings. cbn [files app_style warnings].
  repeat split. intros p. apply write_twice.
Qed.

Lemma saved_choice_applied_again_witness :
  exists st'',
    apply_styles linux None None
      (snd (apply_styles linux (Some "Umbra") None
              (State studio EmptyString [])))
    = (Applied, st'')
    /\ app_style st'' = "QWidget { font-size: 12pt; }".
Proof.
  destruct (saved_choice_applied_again linux (Some "Umbra") None
              (State studio EmptyString [])
              (snd (apply_styles linux (Some "Umbra") None
                      (State studio EmptyString [])))
              [("accent", "blue"); ("selected_theme", "Umbra");
               ("font_size", "12pt")]
              eq_refl eq_refl ltac:(vm_compute; discriminate))
    as (st'' & Ha & Hstyle & _).
  exists st''. split; [exact Ha|]. rewrite Hstyle. reflexivity.
Defined.

(** X11: the first start: with no settings file and the stylesheet of
    [Maya Default] in place, a call without arguments goes to its end,
    sets that stylesheet rewritten under [Auto] on the application, and
    leaves settings that hold [Maya Default] and [Auto]. *)
Theorem first_start_defaults :
  forall (h : host) (st : state) (sheet : string),
    files st (settings_file_path h) = None ->
    files st (qss_file h "Maya Default") = Some sheet ->
    exists sheet' st',
      modify_font_size "Auto" sheet = Some sheet'
      /\ apply_styles h None None st = (Applied, st')
      /\ app_style st' = sheet'
      /\ load_settings h st'
         = Json.Parsed
             [("selected_theme", "Maya Default"); ("font_size", "Auto")].
Proof.
  intros h st sheet Hnone Hsheet.
  destruct (modify_font_size "Auto" sheet) as [sheet'|] eqn:Hm.
  2:{ now destruct (modify_not_none "Auto" sheet eq_refl). }
  assert (Hl : load_settings h st = Json.Parsed []).
  { unfold load_settings. now rewrite Hnone. }
  exists sheet'. eexists. split; [reflexivity|].
  unfold apply_styles. rewrite Hl. cbv zeta. cbn [resolve].
  change (Json.get_default "selected_theme" "Maya Default" [])
    with "Maya Default".
  change (Json.get_default "font_size" "Auto" []) with "Auto".
  rewrite Hsheet, Hm. split; [reflexivity|]. split; [reflexivity|].
  apply load_saved. repeat constructor; simpl; intuition discriminate.
Qed.

Lemma first_start_defaults_witness :
  exists sheet' st',
    modify_font_size "Auto" "QWidget { color: grey; font-size: 11pt; }"
    = Some sheet'
    /\ apply_styles linux None None (State fresh "old" []) = (Applied, st')
    /\ app_style st' = sheet'
    /\ load_settings linux st'
       = Json.Parsed
           [("selected_theme", "Maya Default"); ("font_size", "Auto")].
Proof.
  exact (first_start_defaults linux (State fresh "old" [])
           "QWidget { color: grey; font-size: 11pt; }" eq_refl eq_refl).
Defined.

(** ** The file name of a theme *)







(** ** More of the installer *)

Lemma install_or_patch env usersetup :
  Install.install env usersetup = usersetup
  \/ Install.install env usersetup = Install.patch_usersetup usersetup.
Proof.
  unfold Install.install.
  destruct (Install.target_exists env && Install.rmtree_raises env),
    (Install.copytree_raises env); auto.
Qed.

(** X13: [install] never takes text out of an existing [userSetup.py]:
    after a run, however it ends, the file starts with the text it had
    before. *)
Theorem install_keeps_usersetup_text :
  forall (env : Install.copy_env) (content : string),
    exists added,
      Install.install env (Some content) = Some (content ++ added).
Proof.
  intros env content.
  destruct (install_or_patch env (Some content)) as [-> | ->].
  - exists EmptyString. now rewrite append_nil_r.
  - unfold Install.patch_usersetup.
    destruct (contains "MayaUIChanger" content).
    + exists EmptyString. now rewrite append_nil_r.
    + eexists. reflexivity.
Qed.

(** X14: after a run of [install] in which the removal of an old copy
    and the copy of the project both went through, [userSetup.py] is
    there and holds the marker [MayaUIChanger]. *)
Theorem install_leaves_marker :
  forall (env : Install.copy_env) (usersetup : option string),
    Install.target_exists env && Install.rmtree_raises env = false ->
    Install.copytree_raises env = false ->
    exists text,
      Install.install env usersetup = Some text
      /\ contains "MayaUIChanger" text = true.
Proof.
  intros env usersetup H1 H2. unfold Install.install. rewrite H1, H2.
  unfold Install.patch_usersetup.
  destruct usersetup as [content|].
  - destruct (contains "MayaUIChanger" content) eqn:E.
    + eauto.
    + eexists. split; [reflexivity|].
      apply contains_app_l, contains_app_l, setup_code_marked.
  - eexists. split; [reflexivity|]. exact setup_code_marked.
Qed.

Lemma install_leaves_marker_witness :
  exists text,
    Install.install (Install.CopyEnv true false false)
      (Some "import os")
    = Some text
    /\ contains "MayaUIChanger" text = true.
Proof.
  exact (install_leaves_marker (Install.CopyEnv true false false)
           (Some "import os") eq_refl eq_refl).
Defined.

(** X15: after any number of runs of [install], whatever each run met,
    [userSetup.py] is as it was before the first run or as one patch
    leaves it: the setup code is there at most once more. *)
Theorem install_runs_patch_once :
  forall (envs : list Install.copy_env) (usersetup : option string),
    install_runs envs usersetup = usersetup
    \/ install_runs envs usersetup = Install.patch_usersetup usersetup.
Proof.
  unfold install_runs.
  assert (H : forall envs f usersetup,
             f = usersetup \/ f = Install.patch_usersetup usersetup ->
             fold_left (fun f env => Install.install env f) envs f
             = usersetup
             \/ fold_left (fun f env => Install.install env f) envs f
                = Install.patch_usersetup usersetup).
  { induction envs as [|env envs IH]; intros f usersetup Hf; [exact Hf|].
    cbn [fold_left]. apply IH.
    destruct Hf as [-> | ->];
      destruct (install_or_patch env usersetup) as [E | E];
      destruct (install_or_patch env (Install.patch_usersetup usersetup))
        as [E' | E'];
      rewrite ?patch_twice in E'; auto. }
  intros envs usersetup. apply H. now left.
Qed.

(** ** The paint-driven widgets *)

Lemma qobject_induction (P : Paint.qobject -> Prop) :
  (forall cls w kids, Forall P kids -> P (Paint.QObject cls w kids)) ->
  forall o, P o.
Proof.
  intros H. fix IH 1. intros [cls w kids]. apply H.
  induction kids as [|k kids IHk]; constructor; [apply IH | exact IHk].
Qed.

Lemma clear_look_twice cls w :
  Paint.clear_look cls (Paint.clear_look cls w) = Paint.clear_look cls w.
Proof.
  unfold Paint.clear_look. destruct w as [l|]; [|reflexivity].
  destruct (Paint.paint_driven cls) eqn:E; now rewrite ?E.
Qed.

Lemma clear_found_twice : forall o,
  Paint.clear_found (Paint.clear_found o) = Paint.clear_found o.
Proof.
  apply qobject_induction. intros cls w kids IH.
  cbn [Paint.clear_found]. rewrite clear_look_twice, map_map. f_equal.
  induction IH as [|k kids Hk _ IHk]; [reflexivity|].
  cbn [map]. now rewrite Hk, IHk.
Qed.

(** X16: clearing twice is clearing once. *)
Theorem clear_paint_driven_styles_twice :
  forall widget : option Paint.qobject,
    Paint.clear_paint_driven_styles (Paint.clear_paint_driven_styles widget)
    = Paint.clear_paint_driven_styles widget.
Proof.
  intros [[cls w kids]|]; [|reflexivity].
  cbn [Paint.clear_paint_driven_styles]. rewrite map_map.
  do 2 f_equal. induction kids as [|k kids IH]; [reflexivity|].
  cbn [map]. now rewrite clear_found_twice, IH.
Qed.

Lemma below_cleared_kids : forall kids,
  Forall (fun k =>
            Paint.below (Paint.clear_found k)
            = map (fun e => (fst e, Paint.clear_look (fst e) (snd e)))
                  (Paint.below k)) kids ->
  Paint.below (Paint.QObject EmptyString None (map Paint.clear_found kids))
  = map (fun e => (fst e, Paint.clear_look (fst e) (snd e)))
        (Paint.below (Paint.QObject EmptyString None kids)).
Proof.
  intros kids H. cbn [Paint.below].
  induction H as [|k kids Hk _ IH]; [reflexivity|].
  destruct k as [cls w ks].
  cbn [map flat_map Paint.clear_found] in *.
  rewrite IH, Hk, map_app. reflexivity.
Qed.

Lemma below_cleared : forall o,
  Paint.below (Paint.clear_found o)
  = map (fun e => (fst e, Paint.clear_look (fst e) (snd e)))
        (Paint.below o).
Proof.
  apply qobject_induction. intros cls w kids IH.
  exact (below_cleared_kids kids IH).
Qed.

(** X17: [clear_paint_driven_styles] leaves the widget it is given as
    it is and keeps the shape of the tree; of the objects below, each
    widget of a paint-driven class gets the empty stylesheet and the
    attribute off, and every other object keeps its look. *)
Theorem clear_paint_driven_styles_below :
  forall (cls : string) (w : option Paint.look)
         (kids : list Paint.qobject),
    exists kids',
      Paint.clear_paint_driven_styles (Some (Paint.QObject cls w kids))
      = Some (Paint.QObject cls w kids')
      /\ Paint.below (Paint.QObject cls w kids')
         = map (fun e =>
                  (fst e,
                   match snd e with
                   | Some l =>
                       if Paint.paint_driven (fst e)
                       then Some (Paint.Look EmptyString false)
                       else Some l
                   | None => None
                   end))
               (Paint.below (Paint.QObject cls w kids)).
Proof.
  intros cls w kids. exists (map Paint.clear_found kids).
  split; [reflexivity|].
  assert (H : Forall (fun k =>
                 Paint.below (Paint.clear_found k)
                 = map (fun e => (fst e, Paint.clear_look (fst e) (snd e)))
                       (Paint.below k)) kids).
  { apply Forall_forall. intros k _. apply below_cleared. }
  exact (below_cleared_kids kids H).
Qed.
